(** * PostgresStore: a shallow embedding of the Postgres tile storage

    The store keeps opaque tile blobs in one relational table keyed by
    (zoom, idx).  This development embeds the JavaScript module in Rocq:
    JavaScript values and objects, the SQL statements the module sends,
    the database handle it talks to, and every method of the store as a
    computation over the store object and the outside world.

    The first half holds the definitions: the embedding ([Js], [Text],
    [Sql], [Client], [Promistreamus], [PostgresStore]), a concrete host
    and store ([Sample], [Cases]) and the vocabulary of the statements
    ([Spec], [Terms], [Claimed]).  The second half holds the proofs: facts
    about the embedding, then the properties of point reads and writes
    ([PointAccess]), of the batch buffer ([Batching]) and of range queries
    ([RangeFacts]), and their instances on the sample store.

    Further modules cover the rest of the store: the metadata record
    ([Metadata]) and sequences of calls ([Session]) among the definitions;
    the constructor ([Construction]), what the methods refuse ([Guards]),
    what a call leaves alone ([Isolation]), invariants of sequences of
    calls ([Sessions]), sizes and metadata ([Answers]), pending writes
    ([Pending]) and the way from the constructor to the first tile
    ([EndToEnd]) among the proofs, with their instances ([Instances]). *)

From Stdlib Require Import ZArith QArith Qpower Qcanon List String Ascii Bool Lia.
From Stdlib Require Import Strings.Byte.
From Stdlib Require Import DecimalString DecimalZ.
From stdpp Require Import base option list strings gmap.

Local Open Scope Z_scope.

(** ** JavaScript values *)

Module Js.

(** The values that flow through the store: numbers (exact rationals, which
    cover the integers and the fractional powers of four that
    [Math.pow(4, zoom)] yields), strings, booleans, Buffers, Dates
    (milliseconds since the epoch) and [undefined]. *)
Inductive val :=
| Undef
| Num (q : Q)
| Str (s : string)
| Bool (b : bool)
| Buf (b : list byte)
| Date (ms : Z).

(** An object is its list of own properties in insertion order. *)
Definition obj := list (string * val).

(** [o.k]; a property the object does not have reads as [undefined]. *)
Fixpoint get (o : obj) (k : string) : val :=
  match o with
  | [] => Undef
  | (k', v) :: o' => if String.eqb k' k then v else get o' k
  end.

(** [delete o.k] *)
Fixpoint del (o : obj) (k : string) : obj :=
  match o with
  | [] => []
  | (k', v) :: o' => if String.eqb k' k then del o' k else (k', v) :: del o' k
  end.

(** [o.k = v]: an existing property keeps its place, a new one goes last. *)
Fixpoint put (o : obj) (k : string) (v : val) : obj :=
  match o with
  | [] => [(k, v)]
  | (k', v') :: o' =>
      if String.eqb k' k then (k, v) :: o' else (k', v') :: put o' k v
  end.

Definition of_int (z : Z) : val := Num (inject_Z z).

(** Truthiness of a value. *)
Definition truthy (v : val) : bool :=
  match v with
  | Undef => false
  | Num q => negb (Qeq_bool q 0)
  | Str s => negb (String.eqb s EmptyString)
  | Bool b => b
  | Buf _ => true
  | Date _ => true
  end.

(** [typeof v === 'undefined'] *)
Definition is_undefined (v : val) : bool :=
  match v with
  | Undef => true
  | _ => false
  end.

(** [typeof v === 'number'] *)
Definition is_number (v : val) : bool :=
  match v with
  | Num _ => true
  | _ => false
  end.

(** [Object.prototype.toString.call(v) === '[object Date]'] *)
Definition is_date (v : val) : bool :=
  match v with
  | Date _ => true
  | _ => false
  end.

(** The number a value stands for in a comparison; [None] is NaN, which
    makes every comparison false.  The module compares numbers, dates and
    absent options only; strings and Buffers are left at NaN. *)
Definition to_number (v : val) : option Q :=
  match v with
  | Num q => Some q
  | Date ms => Some (inject_Z ms)
  | Bool b => Some (if b then 1%Q else 0%Q)
  | _ => None
  end.

Definition lt (a b : Q) : bool := negb (Qle_bool b a).
Definition le (a b : Q) : bool := Qle_bool a b.
Definition gt (a b : Q) : bool := lt b a.
Definition ge (a b : Q) : bool := le b a.

(** A number is an integer when its reduced denominator is one. *)
Definition int_of (q : Q) : option Z :=
  if Pos.eqb (Qden (Qred q)) 1 then Some (Qnum (Qred q)) else None.

(** The integer a value is, when it is a number without fractional part. *)
Definition as_integer (v : val) : option Z :=
  match v with
  | Num q => int_of q
  | _ => None
  end.

(** [core.isInteger] *)
Definition isInteger (v : val) : bool :=
  match as_integer v with
  | Some _ => true
  | None => false
  end.

(** [a < b], [a > b], [a >= b], [a <= b] on values. *)
Definition val_lt (a b : val) : bool :=
  match to_number a, to_number b with
  | Some x, Some y => lt x y
  | _, _ => false
  end.

Definition val_gt (a b : val) : bool := val_lt b a.

Definition val_ge (a b : val) : bool :=
  match to_number a, to_number b with
  | Some x, Some y => ge x y
  | _, _ => false
  end.

Definition val_le (a b : val) : bool := val_ge b a.

(** [Math.pow(4, zoom)] for an integer zoom. *)
Definition pow4 (zoom : Z) : Q := Qpower (4 # 1) zoom.

End Js.

(** ** The runtime and the host framework

    What the module receives from outside: the quadtree encoder of the host
    ([core.xyToIndex]), the runtime's renderings of numbers and dates as
    text (as used by [JSON.stringify] and [util.format]). *)
Class Host := {
  xyToIndex : Z -> Z -> Z -> Z;
  number_text : Q -> string;
  date_text : Z -> string
}.

(** ** JSON.stringify and util.format *)

Module Text.

Definition quote : ascii := ascii_of_nat 34.
Definition backslash : ascii := ascii_of_nat 92.

Definition hex_digit (n : nat) : ascii :=
  ascii_of_nat (if Nat.ltb n 10 then 48 + n else 87 + n).

(** One character of a JSON string literal. *)
Definition escape_char (c : ascii) : string :=
  let n := nat_of_ascii c in
  if Nat.eqb n 34 then String backslash (String quote EmptyString)
  else if Nat.eqb n 92 then String backslash (String backslash EmptyString)
  else if Nat.eqb n 8 then String backslash "b"
  else if Nat.eqb n 12 then String backslash "f"
  else if Nat.eqb n 10 then String backslash "n"
  else if Nat.eqb n 13 then String backslash "r"
  else if Nat.eqb n 9 then String backslash "t"
  else if Nat.ltb n 32 then
    String backslash
      ("u00" +:+ String (hex_digit (Nat.div n 16))
                   (String (hex_digit (Nat.modulo n 16)) EmptyString))
  else String c EmptyString.

Fixpoint escape (s : string) : string :=
  match s with
  | EmptyString => EmptyString
  | String c s' => escape_char c +:+ escape s'
  end.

(** [JSON.stringify(s)] for a string [s]. *)
Definition json_string (s : string) : string :=
  String quote (escape s +:+ String quote EmptyString).

Fixpoint join (sep : string) (l : list string) : string :=
  match l with
  | [] => EmptyString
  | [x] => x
  | x :: l' => x +:+ sep +:+ join sep l'
  end.

Section Rendering.
Context `{Host}.

Definition json_val (v : Js.val) : string :=
  match v with
  | Js.Undef => "undefined"
  | Js.Num q => number_text q
  | Js.Str s => json_string s
  | Js.Bool b => if b then "true" else "false"
  | Js.Buf b =>
      "{" +:+ json_string "type" +:+ ":" +:+ json_string "Buffer" +:+ ","
      +:+ json_string "data" +:+ ":["
      +:+ join "," (map (fun x => number_text (inject_Z (Z.of_N (Byte.to_N x)))) b)
      +:+ "]}"
  | Js.Date ms => json_string (date_text ms)
  end.

(** [JSON.stringify(o)] for a flat object; properties holding [undefined]
    are left out. *)
Definition json_obj (o : Js.obj) : string :=
  "{" +:+ join ","
            (map (fun kv => json_string (fst kv) +:+ ":" +:+ json_val (snd kv))
                 (List.filter (fun kv => negb (Js.is_undefined (snd kv))) o))
  +:+ "}".

(** Arguments of [util.format]: a plain value or an object. *)
Inductive fmt_arg :=
| ArgVal (v : Js.val)
| ArgObj (o : Js.obj).

Definition show_d (a : fmt_arg) : string :=
  match a with
  | ArgVal v =>
      match Js.to_number v with
      | Some q => number_text q
      | None => "NaN"
      end
  | ArgObj _ => "NaN"
  end.

Definition show_j (a : fmt_arg) : string :=
  match a with
  | ArgVal v => json_val v
  | ArgObj o => json_obj o
  end.

(** Arguments left over once the template is consumed are appended,
    separated by spaces. *)
Definition show_rest (args : list fmt_arg) : string :=
  match args with
  | [] => EmptyString
  | _ => " " +:+ join " " (map show_j args)
  end.

(** [util.format(template, ...args)] for the placeholders the module
    uses, [%d] and [%j]. *)
Fixpoint format (template : string) (args : list fmt_arg) : string :=
  match template with
  | EmptyString => show_rest args
  | String c rest =>
      match rest with
      | String k rest' =>
          if Ascii.eqb c "%" then
            if Ascii.eqb k "%" then String "%" (format rest' args)
            else match args with
                 | a :: args' =>
                     if Ascii.eqb k "d" then show_d a +:+ format rest' args'
                     else if Ascii.eqb k "j" then show_j a +:+ format rest' args'
                     else String c (format rest args)
                 | [] => String c (format rest args)
                 end
          else String c (format rest args)
      | EmptyString => String c (show_rest args)
      end
  end.

End Rendering.

(** [needle] occurs in [hay] as a contiguous substring. *)
Fixpoint prefix_of (p s : string) : bool :=
  match p, s with
  | EmptyString, _ => true
  | String a p', String b s' => Ascii.eqb a b && prefix_of p' s'
  | String _ _, EmptyString => false
  end.

Fixpoint contains (hay needle : string) : bool :=
  prefix_of needle hay ||
  match hay with
  | EmptyString => false
  | String _ hay' => contains hay' needle
  end.

End Text.

(** ** The backing table and the SQL the module sends *)

Module Sql.

(** One row of the tile table: [zoom smallint, idx bigint, tile bytea],
    primary key [(zoom, idx)]. *)
Record Row := { r_zoom : Z; r_idx : Z; r_tile : list byte }.

(** Rows in storage order: a SELECT without ORDER BY returns them as they
    are laid out, and an INSERT adds at the end. *)
Abbreviation Table := (list Row).

Definition key (r : Row) : Z * Z := (r_zoom r, r_idx r).

(** The primary-key constraint. *)
Definition pk_ok (t : Table) : Prop := List.NoDup (map key t).

(** Left-hand sides of the conditions: [zoom], [idx], [length(tile)]. *)
Inductive Expr := EZoom | EIdx | ELen.
Inductive CmpOp := OpEq | OpLt | OpGe.

(** [lhs op $n] *)
Record Cond := { c_lhs : Expr; c_op : CmpOp; c_param : nat }.

(** Selected columns: [idx], [tile], [length(tile) AS len]. *)
Inductive Field := FIdx | FTile | FLen.

(** The statement shapes; [$1~] always names the table.
    - [Select fs cs]: SELECT fs FROM $1~ WHERE cs
    - [Update p cs]: UPDATE $1~ SET tile=$p WHERE cs
    - [InsertUnless z i t cs]: INSERT INTO $1~ (zoom, idx, tile)
        SELECT $z, $i, $t WHERE NOT EXISTS (SELECT 1 FROM $1~ WHERE cs)
    - [Delete cs]: DELETE FROM $1~ WHERE cs *)
Inductive Stmt :=
| Select (fields : list Field) (conds : list Cond)
| Update (tile_param : nat) (conds : list Cond)
| InsertUnless (zoom_param idx_param tile_param : nat) (conds : list Cond)
| Delete (conds : list Cond).

(** A query text: statements separated by semicolons. *)
Abbreviation Query := (list Stmt).

(** A result row as the driver hands it over: a bigint column arrives as
    decimal text, bytea as a Buffer, length as a number. *)
Record ResultRow := {
  col_idx : option string;
  col_tile : option (list byte);
  col_len : option Z
}.

Definition show_Z (z : Z) : string := NilZero.string_of_int (Z.to_int z).

(** The positional parameter [$n], counted from one. *)
Definition arg (ps : list Js.val) (n : nat) : option Js.val :=
  match n with
  | O => None
  | S k => nth_error ps k
  end.

Definition num_arg (ps : list Js.val) (n : nat) : option Q :=
  match arg ps n with
  | Some (Js.Num q) => Some q
  | _ => None
  end.

Definition int_arg (ps : list Js.val) (n : nat) : option Z :=
  match num_arg ps n with
  | Some q => Js.int_of q
  | None => None
  end.

Definition buf_arg (ps : list Js.val) (n : nat) : option (list byte) :=
  match arg ps n with
  | Some (Js.Buf b) => Some b
  | _ => None
  end.

Definition eval_expr (e : Expr) (r : Row) : Q :=
  match e with
  | EZoom => inject_Z (r_zoom r)
  | EIdx => inject_Z (r_idx r)
  | ELen => inject_Z (Z.of_nat (length (r_tile r)))
  end.

Definition compare_op (op : CmpOp) (a b : Q) : bool :=
  match op with
  | OpEq => Qeq_bool a b
  | OpLt => Js.lt a b
  | OpGe => Js.ge a b
  end.

Definition eval_cond (ps : list Js.val) (r : Row) (c : Cond) : option bool :=
  match num_arg ps (c_param c) with
  | Some q => Some (compare_op (c_op c) (eval_expr (c_lhs c) r) q)
  | None => None
  end.

(** The conjunction of the conditions on one row; [None] when a parameter
    is missing or not a number (the server rejects the statement). *)
Fixpoint holds (ps : list Js.val) (r : Row) (cs : list Cond) : option bool :=
  match cs with
  | [] => Some true
  | c :: cs' =>
      match eval_cond ps r c, holds ps r cs' with
      | Some b, Some b' => Some (b && b')
      | _, _ => None
      end
  end.

(** The rows satisfying the conditions, in storage order. *)
Fixpoint scan (ps : list Js.val) (cs : list Cond) (t : Table) : option (list Row) :=
  match t with
  | [] => Some []
  | r :: t' =>
      match holds ps r cs, scan ps cs t' with
      | Some b, Some keep => Some (if b then r :: keep else keep)
      | _, _ => None
      end
  end.

Fixpoint rewrite_tiles (ps : list Js.val) (cs : list Cond) (b : list byte) (t : Table)
  : option Table :=
  match t with
  | [] => Some []
  | r :: t' =>
      match holds ps r cs, rewrite_tiles ps cs b t' with
      | Some hit, Some t'' =>
          Some ((if hit then {| r_zoom := r_zoom r; r_idx := r_idx r; r_tile := b |} else r)
                  :: t'')
      | _, _ => None
      end
  end.

Fixpoint drop_rows (ps : list Js.val) (cs : list Cond) (t : Table) : option Table :=
  match t with
  | [] => Some []
  | r :: t' =>
      match holds ps r cs, drop_rows ps cs t' with
      | Some hit, Some t'' => Some (if hit then t'' else r :: t'')
      | _, _ => None
      end
  end.

Definition has_key (t : Table) (z i : Z) : bool :=
  existsb (fun r => Z.eqb (r_zoom r) z && Z.eqb (r_idx r) i) t.

Definition project (fs : list Field) (r : Row) : ResultRow :=
  {| col_idx := if existsb (fun f => match f with FIdx => true | _ => false end) fs
                then Some (show_Z (r_idx r)) else None;
     col_tile := if existsb (fun f => match f with FTile => true | _ => false end) fs
                 then Some (r_tile r) else None;
     col_len := if existsb (fun f => match f with FLen => true | _ => false end) fs
                then Some (Z.of_nat (length (r_tile r))) else None |}.

(** One statement against the table: the new table and the rows returned,
    or [None] when the server rejects it (bad parameter, key violation). *)
Definition exec_stmt (ps : list Js.val) (s : Stmt) (t : Table)
  : option (Table * list ResultRow) :=
  match s with
  | Select fs cs =>
      match scan ps cs t with
      | Some rows => Some (t, map (project fs) rows)
      | None => None
      end
  | Update p cs =>
      match buf_arg ps p with
      | Some b =>
          match rewrite_tiles ps cs b t with
          | Some t' => Some (t', [])
          | None => None
          end
      | None => None
      end
  | InsertUnless zp ip tp cs =>
      match int_arg ps zp, int_arg ps ip, buf_arg ps tp, scan ps cs t with
      | Some z, Some i, Some b, Some found =>
          match found with
          | [] =>
              if has_key t z i then None
              else Some (t ++ [{| r_zoom := z; r_idx := i; r_tile := b |}], [])
          | _ :: _ => Some (t, [])
          end
      | _, _, _, _ => None
      end
  | Delete cs =>
      match drop_rows ps cs t with
      | Some t' => Some (t', [])
      | None => None
      end
  end.

Fixpoint exec_stmts (ps : list Js.val) (q : Query) (t : Table)
  : option (Table * list ResultRow) :=
  match q with
  | [] => Some (t, [])
  | s :: q' =>
      match exec_stmt ps s t with
      | Some (t', rows) =>
          match exec_stmts ps q' t' with
          | Some (t'', rows') => Some (t'', rows ++ rows')
          | None => None
          end
      | None => None
      end
  end.

(** A database: its tables by name. *)
Definition exec (ps : list Js.val) (q : Query) (db : gmap string Table)
  : option (gmap string Table * list ResultRow) :=
  match arg ps 1 with
  | Some (Js.Str name) =>
      match db !! name with
      | Some t =>
          match exec_stmts ps q t with
          | Some (t', rows) => Some (<[name := t']> db, rows)
          | None => None
          end
      | None => None
      end
  | _ => None
  end.

End Sql.

(** ** Failures *)

(** Why the database handle rejected a call. *)
Inductive Rejection :=
| InvalidQuery                  (* the query text is not a string *)
| QueryFailed                   (* the server refused the statement *)
| DataReturned                  (* [none]: rows came back *)
| MultipleRows                  (* [oneOrNone]: more than one row *)
| Fault (reason : string).      (* connection or server fault *)

Inductive Cause :=
| NoTile                        (* [core.throwNoTile()] *)
| Thrown (message : string)     (* [new Error(message)] of [throwError] *)
| TypeError                     (* property access on [undefined] *)
| Rejected (r : Rejection).

(** An error object: what it is, and its [moduleUri] property when
    [attachUri] has set it. *)
Record Failure := { cause : Cause; moduleUri : option string }.

Inductive Result (A : Type) :=
| Ok (a : A)
| Err (e : Failure).
Arguments Ok {A} a.
Arguments Err {A} e.

Definition raw (c : Cause) : Failure := {| cause := c; moduleUri := None |}.

(** ** The database handle and the world behind it *)

Module Client.

(** A pending write of the batch: [{query, params}]. *)
Record BatchEntry := { query : option Sql.Query; params : list Js.val }.

(** What the environment decides for one call: it goes through, or a
    fault strikes; for a grouped submission [applied] leading entries were
    already applied by then. *)
Inductive Outcome :=
| Proceed
| Strike (applied : nat) (reason : string).

Inductive Call :=
| CallNone (q : option Sql.Query) (ps : list Js.val)
| CallOneOrNone (q : option Sql.Query) (ps : list Js.val)
| CallBatch (entries : list BatchEntry)
| CallStream (q : Sql.Query) (ps : list Js.val)
| CallBootstrap (create : bool) (table : Js.val).

(** What [console.log] printed: the summary of a finished cursor or the
    error of a failed one. *)
Inductive Line :=
| LogDone
| LogErr (e : Failure).

(** The world outside the store object: the database, the outcomes the
    environment has in store for the coming calls (none left: all go
    through), the calls made so far, the console, and the rejections no
    handler took (raised out of band). *)
Record World := {
  db : gmap string Sql.Table;
  script : list Outcome;
  log : list Call;
  console : list Line;
  uncaught : list Failure
}.

Definition next_outcome (w : World) : Outcome :=
  match script w with
  | [] => Proceed
  | o :: _ => o
  end.

(** Record a call and consume its outcome. *)
Definition called (c : Call) (w : World) : World :=
  {| db := db w; script := tl (script w); log := log w ++ [c];
     console := console w; uncaught := uncaught w |}.

Definition with_db (d : gmap string Sql.Table) (w : World) : World :=
  {| db := d; script := script w; log := log w;
     console := console w; uncaught := uncaught w |}.

Definition print (l : Line) (w : World) : World :=
  {| db := db w; script := script w; log := log w;
     console := console w ++ [l]; uncaught := uncaught w |}.

Definition unhandled (e : Failure) (w : World) : World :=
  {| db := db w; script := script w; log := log w;
     console := console w; uncaught := uncaught w ++ [e] |}.

(** [client.none(query, params)]: run the query, expect no rows. *)
Definition none (q : option Sql.Query) (ps : list Js.val) (w : World)
  : Result unit * World :=
  let w' := called (CallNone q ps) w in
  match q with
  | None => (Err (raw (Rejected InvalidQuery)), w')
  | Some text =>
      match next_outcome w with
      | Strike _ reason => (Err (raw (Rejected (Fault reason))), w')
      | Proceed =>
          match Sql.exec ps text (db w) with
          | Some (d, []) => (Ok tt, with_db d w')
          | Some (d, _ :: _) => (Err (raw (Rejected DataReturned)), with_db d w')
          | None => (Err (raw (Rejected QueryFailed)), w')
          end
      end
  end.

(** [client.oneOrNone(query, params)]: the row, or [null] when there is
    none. *)
Definition oneOrNone (q : option Sql.Query) (ps : list Js.val) (w : World)
  : Result (option Sql.ResultRow) * World :=
  let w' := called (CallOneOrNone q ps) w in
  match q with
  | None => (Err (raw (Rejected InvalidQuery)), w')
  | Some text =>
      match next_outcome w with
      | Strike _ reason => (Err (raw (Rejected (Fault reason))), w')
      | Proceed =>
          match Sql.exec ps text (db w) with
          | Some (d, []) => (Ok None, with_db d w')
          | Some (d, [row]) => (Ok (Some row), with_db d w')
          | Some (d, _ :: _ :: _) => (Err (raw (Rejected MultipleRows)), with_db d w')
          | None => (Err (raw (Rejected QueryFailed)), w')
          end
      end
  end.

(** The entries of a group applied one after the other; stops at the first
    one the server refuses. *)
Fixpoint apply_entries (es : list BatchEntry) (d : gmap string Sql.Table)
  : option Rejection * gmap string Sql.Table :=
  match es with
  | [] => (None, d)
  | e :: es' =>
      match query e with
      | None => (Some InvalidQuery, d)
      | Some text =>
          match Sql.exec (params e) text d with
          | Some (d', _) => apply_entries es' d'
          | None => (Some QueryFailed, d)
          end
      end
  end.

(** Modelled from the spec: [client.batchAsync(batch)], a method of the
    database handle that is not part of the module; section 4.3 has it
    submit the detached sequence as one grouped multi-statement operation,
    and section 1 excludes atomicity of the group. *)
Definition batchAsync (es : list BatchEntry) (w : World) : Result unit * World :=
  let w' := called (CallBatch es) w in
  match next_outcome w with
  | Strike applied reason =>
      (Err (raw (Rejected (Fault reason))),
       with_db (snd (apply_entries (firstn applied es) (db w))) w')
  | Proceed =>
      match apply_entries es (db w) with
      | (None, d) => (Ok tt, with_db d w')
      | (Some r, d) => (Err (raw (Rejected r)), with_db d w')
      end
  end.

(** The bootstrap statement of the constructor: create the table when it is
    missing, or probe that it is there. *)
Definition bootstrap (create : bool) (table : Js.val) (w : World) : Result unit * World :=
  let w' := called (CallBootstrap create table) w in
  match next_outcome w with
  | Strike _ reason => (Err (raw (Rejected (Fault reason))), w')
  | Proceed =>
      match table with
      | Js.Str name =>
          match db w !! name with
          | Some _ => (Ok tt, w')
          | None =>
              if create then (Ok tt, with_db (<[name := []]> (db w)) w')
              else (Err (raw (Rejected QueryFailed)), w')
          end
      | _ => (Err (raw (Rejected QueryFailed)), w')
      end
  end.

(** What a cursor emits, in order. *)
Inductive Event :=
| Data (row : Sql.ResultRow)
| End_
| Error (e : Failure).

(** [client.stream(query, init)] with a [QueryStream] over the statement.
    [$1~] is the handle's own notation for a table name: [none] and
    [oneOrNone] put the name and the values into the text before it leaves
    ([Sql.exec] runs the text so completed), whereas [stream] hands the
    [QueryStream] to the server as it is.  Every statement of the module
    names its table by [$1~], which is no SQL, so the server refuses the
    statement: the stream emits the error, at once and without a row.  When
    a fault strikes, the stream emits that fault instead. *)
Definition stream (q : Sql.Query) (ps : list Js.val) (w : World) : list Event * World :=
  let w' := called (CallStream q ps) w in
  match next_outcome w with
  | Proceed => ([Error (raw (Rejected QueryFailed))], w')
  | Strike _ reason => ([Error (raw (Rejected (Fault reason)))], w')
  end.

End Client.

(** ** The streaming cursor adapter *)

Module Promistreamus.

Import Client.

(** How a call of [next()] was settled. *)
Inductive Settled (A : Type) :=
| Value (a : A)
| Finished
| Refused (e : Failure).
Arguments Value {A} a.
Arguments Finished {A}.
Arguments Refused {A} e.

(** The iterator: its selector, the stream it was initialised with (as the
    events still to come), the one row read ahead, the fault or end it has
    seen, the calls of [next()] still waiting and the settled ones, oldest
    first. *)
Record Iterator (A : Type) := {
  selectorFunc : Sql.ResultRow -> A;
  initialised : bool;
  source : list Event;
  ahead : option Sql.ResultRow;
  fault : option Failure;
  ended : bool;
  pending : nat;
  settled : list (Settled A)
}.
Arguments selectorFunc {A} i.
Arguments initialised {A} i.
Arguments source {A} i.
Arguments ahead {A} i.
Arguments fault {A} i.
Arguments ended {A} i.
Arguments pending {A} i.
Arguments settled {A} i.

(** Modelled from the spec: the pull adapter [promistreamus], which is not
    part of the module; section 4.5: each [next()] resolves to one
    transformed record or the end marker, at most one row is buffered ahead
    of the consumer, and a stream fault is captured and delivered on the
    next [next()] call.  [promistreamus(undefined, selector)] starts
    uninitialised. *)
Definition promistreamus {A} (selector : Sql.ResultRow -> A) : Iterator A :=
  {| selectorFunc := selector; initialised := false; source := []; ahead := None;
     fault := None; ended := false; pending := 0; settled := [] |}.

(** Modelled from the spec: [iterator.init(stream)], the delayed
    initialisation of the adapter with the stream it is to read. *)
Definition init {A} (events : list Event) (it : Iterator A) : Iterator A :=
  {| selectorFunc := selectorFunc it; initialised := true; source := events;
     ahead := ahead it; fault := fault it; ended := ended it;
     pending := pending it; settled := settled it |}.

(** Modelled from the spec: the consumer calls [next()]. *)
Definition next {A} (it : Iterator A) : Iterator A :=
  match fault it with
  | Some e =>
      {| selectorFunc := selectorFunc it; initialised := initialised it;
         source := source it; ahead := None; fault := fault it; ended := ended it;
         pending := pending it; settled := settled it ++ [Refused e] |}
  | None =>
      match ahead it with
      | Some row =>
          {| selectorFunc := selectorFunc it; initialised := initialised it;
             source := source it; ahead := None; fault := None; ended := ended it;
             pending := pending it;
             settled := settled it ++ [Value (selectorFunc it row)] |}
      | None =>
          if ended it then
            {| selectorFunc := selectorFunc it; initialised := initialised it;
               source := source it; ahead := None; fault := None; ended := true;
               pending := pending it; settled := settled it ++ [Finished] |}
          else
            {| selectorFunc := selectorFunc it; initialised := initialised it;
               source := source it; ahead := None; fault := None; ended := false;
               pending := S (pending it); settled := settled it |}
      end
  end.

(** What became of the stream, for whoever opened it. *)
Inductive Completion :=
| Completed
| Broke (e : Failure).

(** Modelled from the spec: the stream emits its next event.  A row goes
    to the oldest waiting [next()], else into the one-row buffer, else it
    stays with the cursor; the end settles every waiting call; a fault is
    captured and refuses the waiting calls.  The second component tells
    whoever opened the stream what became of it. *)
Definition emit {A} (it : Iterator A) : Iterator A * option Completion :=
  match source it with
  | [] => (it, None)
  | Data row :: rest =>
      match pending it with
      | S n =>
          ({| selectorFunc := selectorFunc it; initialised := initialised it;
              source := rest; ahead := ahead it; fault := fault it; ended := ended it;
              pending := n;
              settled := settled it ++ [Value (selectorFunc it row)] |}, None)
      | O =>
          match ahead it with
          | None =>
              ({| selectorFunc := selectorFunc it; initialised := initialised it;
                  source := rest; ahead := Some row; fault := fault it;
                  ended := ended it; pending := 0; settled := settled it |}, None)
          | Some _ => (it, None)
          end
      end
  | End_ :: _ =>
      ({| selectorFunc := selectorFunc it; initialised := initialised it;
          source := []; ahead := ahead it; fault := fault it; ended := true;
          pending := 0;
          settled := settled it ++ repeat Finished (pending it) |},
       Some Completed)
  | Error e :: _ =>
      ({| selectorFunc := selectorFunc it; initialised := initialised it;
          source := []; ahead := ahead it; fault := Some e; ended := ended it;
          pending := 0;
          settled := settled it ++ repeat (Refused e) (pending it) |},
       Some (Broke e))
  end.

(** The package keeps the error of its stream as a rejected promise of
    its own.  A call of [next()] that is waiting holds a handler on that
    promise; when no call is waiting the rejection has no handler, and the
    promise library reports it as an unhandled rejection, outside the
    pull protocol.  (Section 4.5 of the specification has every fault
    delivered through [next()] alone; here the package is followed.)
    [unheard it] is the error the next event of the stream raises in that
    way. *)
Definition unheard {A} (it : Iterator A) : option Failure :=
  match source it with
  | Error e :: _ => if Nat.eqb (pending it) 0 then Some e else None
  | _ => None
  end.

End Promistreamus.

(** ** The store object and its methods *)

Module PostgresStore.

Import Sql Client Text.

Definition key_conds : list Cond :=
  [ {| c_lhs := EZoom; c_op := OpEq; c_param := 2 |};
    {| c_lhs := EIdx; c_op := OpEq; c_param := 3 |} ].

(** [self.queries], by property name:
    - getTile: SELECT tile FROM $1~ WHERE zoom = $2 AND idx = $3;
    - getTileSize: SELECT length(tile) AS len FROM $1~ WHERE zoom = $2 AND idx = $3;
    - set: UPDATE $1~ SET tile=$4 WHERE zoom = $2 AND idx = $3;
           INSERT INTO $1~ (zoom, idx, tile) SELECT $2, $3, $4
           WHERE NOT EXISTS (SELECT 1 FROM $1~ WHERE zoom = $2 AND idx = $3);
    - delete: DELETE FROM $1~ WHERE zoom = $2 AND idx = $3; *)
Definition the_queries : gmap string Query :=
  list_to_map
    [ ("getTile", [Select [FTile] key_conds]);
      ("getTileSize", [Select [FLen] key_conds]);
      ("set", [Update 4 key_conds; InsertUnless 2 3 4 key_conds]);
      ("delete", [Delete key_conds]) ].

Definition the_headers : Js.obj :=
  [ ("Content-Type", Js.Str "application/x-protobuf");
    ("Content-Encoding", Js.Str "gzip") ].

(** The store object [self], with the [uri] its closures captured and the
    options its database handle was opened with. *)
Record Store := {
  uri : string;
  clientOpts : Js.obj;
  _params : Js.obj;
  queries : gmap string Query;
  headers : Js.obj;
  batchMode : Z;
  batch : list BatchEntry;
  err : option Failure
}.

Definition set_batchMode (n : Z) (s : Store) : Store :=
  {| uri := uri s; clientOpts := clientOpts s; _params := _params s;
     queries := queries s; headers := headers s;
     batchMode := n; batch := batch s; err := err s |}.

Definition set_batch (b : list BatchEntry) (s : Store) : Store :=
  {| uri := uri s; clientOpts := clientOpts s; _params := _params s;
     queries := queries s; headers := headers s;
     batchMode := batchMode s; batch := b; err := err s |}.

Definition set_params (p : Js.obj) (s : Store) : Store :=
  {| uri := uri s; clientOpts := clientOpts s; _params := p;
     queries := queries s; headers := headers s;
     batchMode := batchMode s; batch := batch s; err := err s |}.

Definition set_clientOpts (o : Js.obj) (s : Store) : Store :=
  {| uri := uri s; clientOpts := o; _params := _params s;
     queries := queries s; headers := headers s;
     batchMode := batchMode s; batch := batch s; err := err s |}.

Definition set_queries (q : gmap string Query) (s : Store) : Store :=
  {| uri := uri s; clientOpts := clientOpts s; _params := _params s;
     queries := q; headers := headers s;
     batchMode := batchMode s; batch := batch s; err := err s |}.

Definition set_headers (h : Js.obj) (s : Store) : Store :=
  {| uri := uri s; clientOpts := clientOpts s; _params := _params s;
     queries := queries s; headers := h;
     batchMode := batchMode s; batch := batch s; err := err s |}.

Definition set_err (e : Failure) (s : Store) : Store :=
  {| uri := uri s; clientOpts := clientOpts s; _params := _params s;
     queries := queries s; headers := headers s;
     batchMode := batchMode s; batch := batch s; err := Some e |}.

(** *** Promise chains as a state and error monad *)

Definition M (A : Type) : Type := Store -> World -> Result A * Store * World.

Definition ret {A} (a : A) : M A := fun s w => (Ok a, s, w).

Definition fail {A} (e : Failure) : M A := fun s w => (Err e, s, w).

(** [.then(k)] *)
Definition bind {A B} (m : M A) (k : A -> M B) : M B :=
  fun s w =>
    match m s w with
    | (Ok a, s', w') => k a s' w'
    | (Err e, s', w') => (Err e, s', w')
    end.

(** [.catch(h)] *)
Definition catch {A} (m : M A) (h : Failure -> M A) : M A :=
  fun s w =>
    match m s w with
    | (Ok a, s', w') => (Ok a, s', w')
    | (Err e, s', w') => h e s' w'
    end.

(** A call on [self.client]. *)
Definition io {A} (f : World -> Result A * World) : M A :=
  fun s w => let (r, w') := f w in (r, s, w').

Definition self : M Store := fun s w => (Ok s, s, w).

Definition update (f : Store -> Store) : M unit := fun s w => (Ok tt, f s, w).

Notation "'do' x <- m ;; k" := (bind m (fun x => k))
  (at level 10, x name, m at level 99, k at level 200).
Notation "'run' m ;; k" := (bind m (fun _ => k))
  (at level 10, m at level 99, k at level 200).

Section Methods.
Context `{Host}.

(** [throw new Error(util.format.apply(null, arguments) + JSON.stringify(uri))] *)
Definition throwError {A} (msg : string) (args : list fmt_arg) : M A :=
  fun s w => (Err (raw (Thrown (format msg args +:+ json_string (uri s)))), s, w).

(** [err.moduleUri = JSON.stringify(self._params); throw err] *)
Definition attachUri {A} (e : Failure) : M A :=
  fun s w =>
    (Err {| cause := cause e; moduleUri := Some (json_obj (_params s)) |}, s, w).

(** [z < self._params.minzoom || z > self._params.maxzoom] *)
Definition outside_window (z : Js.val) (s : Store) : bool :=
  Js.val_lt z (Js.get (_params s) "minzoom")
  || Js.val_gt z (Js.get (_params s) "maxzoom").

(** What [queryTileAsync] resolves to: [resp.tile] and [resp.size], each
    present when asked for. *)
Record Resp := { tile : Js.val; size : Js.val }.

Definition buf_val (b : option (list byte)) : Js.val :=
  match b with
  | Some x => Js.Buf x
  | None => Js.Undef
  end.

Definition int_val (n : option Z) : Js.val :=
  match n with
  | Some x => Js.of_int x
  | None => Js.Undef
  end.

(** The first half of [queryTileAsync]: the options as they are once the
    address has been settled and checked. *)
Definition checked_options (options : Js.obj) : M Js.obj :=
  if Js.truthy (Js.get options "info") then
    ret (Js.put (Js.put options "zoom" (Js.of_int (-1))) "idx" (Js.of_int 0))
  else
    match Js.as_integer (Js.get options "zoom") with
    | None => throwError "Options must contain integer zoom parameter. Opts=%j"
                         [ArgObj options]
    | Some zoom =>
        match Js.as_integer (Js.get options "idx") with
        | None => throwError "Options must contain an integer idx parameter. Opts=%j"
                             [ArgObj options]
        | Some idx =>
            let maxEnd := Js.pow4 zoom in
            if Js.lt (inject_Z idx) 0 || Js.ge (inject_Z idx) maxEnd then
              throwError "Options must satisfy: 0 <= idx < %d. Opts=%j"
                         [ArgVal (Js.Num maxEnd); ArgObj options]
            else ret options
        end
    end.

Definition queryTileAsync (options : Js.obj) : M (option Resp) :=
  catch
    (do opts <- checked_options options ;;
     run (if Js.truthy (Js.get opts "getWriteTime") then
            throwError "getWriteTime is not implemented by Postgres source. Opts=%j"
                       [ArgObj opts]
          else ret tt) ;;
     let getTile := if Js.is_undefined (Js.get opts "getTile") then Js.Bool true
                    else Js.get opts "getTile" in
     let getSize := if Js.is_undefined (Js.get opts "getSize") then Js.Bool false
                    else Js.get opts "getSize" in
     do s <- self ;;
     let query := if Js.truthy getTile then queries s !! "getTile"
                  else queries s !! "getSize" in
     do row <- io (oneOrNone query
                  [Js.get (_params s) "table"; Js.get opts "zoom"; Js.get opts "idx"]) ;;
     match row with
     | Some r =>
         if Js.truthy getSize then
           if Js.truthy getTile then
             match col_tile r with
             | Some b =>
                 ret (Some {| tile := Js.Buf b;
                              size := Js.of_int (Z.of_nat (length b)) |})
             | None => fail (raw TypeError)
             end
           else ret (Some {| tile := Js.Undef; size := int_val (col_len r) |})
         else if Js.truthy getTile then
           ret (Some {| tile := buf_val (col_tile r); size := Js.Undef |})
         else ret (Some {| tile := Js.Undef; size := Js.Undef |})
     | None => ret None
     end)
    attachUri.

(** [getTile(z, x, y)] resolves to [[row.tile, self.headers]]. *)
Definition getTile (z x y : Z) : M (Js.val * Js.obj) :=
  catch
    (do row <- (do s <- self ;;
             if outside_window (Js.of_int z) s then fail (raw NoTile)
             else queryTileAsync [("zoom", Js.of_int z);
                                  ("idx", Js.of_int (xyToIndex x y z))]) ;;
     match row with
     | None => fail (raw NoTile)
     | Some r => do s <- self ;; ret (tile r, headers s)
     end)
    attachUri.

(** [flush]: detach the pending sequence and submit it as one group. *)
Definition flush : M unit :=
  do s <- self ;;
  match batch s with
  | [] => ret tt
  | _ :: _ =>
      run update (set_batch []) ;;
      catch (io (batchAsync (batch s))) attachUri
  end.

(** [flushAsync] is [flush] behind a promise. *)
Definition flushAsync : M unit := flush.

Definition _storeDataAsync (zoom idx : Js.val) (data : option (list byte)) : M unit :=
  catch
    (do s <- self ;;
     let '(query, params) :=
       match data with
       | Some (c :: b) =>
           (queries s !! "set", [Js.get (_params s) "table"; zoom; idx; Js.Buf (c :: b)])
       | _ => (queries s !! "delete", [Js.get (_params s) "table"; zoom; idx])
       end in
     if Z.eqb (batchMode s) 0 || negb (Js.truthy (Js.get (_params s) "maxBatchSize")) then
       io (none query params)
     else
       run update (set_batch (batch s ++ [{| query := query; params := params |}])) ;;
       do s' <- self ;;
       if Js.val_gt (Js.of_int (Z.of_nat (length (batch s'))))
                    (Js.get (_params s') "maxBatchSize")
       then flushAsync
       else ret tt)
    attachUri.

Definition putTile (z x y : Z) (data : option (list byte)) : M unit :=
  do s <- self ;;
  run (if outside_window (Js.of_int z) s then
         throwError
           "This PostgresStore source cannot save zoom %d, because its configured for zooms %d..%d"
           [ArgVal (Js.of_int z); ArgVal (Js.get (_params s) "minzoom");
            ArgVal (Js.get (_params s) "maxzoom")]
       else ret tt) ;;
  _storeDataAsync (Js.of_int z) (Js.of_int (xyToIndex x y z)) data.

(** [/^[a-zA-Z][_a-zA-Z0-9]*$/] *)
Definition is_letter (c : ascii) : bool :=
  let n := nat_of_ascii c in
  (Nat.leb 65 n && Nat.leb n 90) || (Nat.leb 97 n && Nat.leb n 122).

Definition is_word (c : ascii) : bool :=
  let n := nat_of_ascii c in
  is_letter c || (Nat.leb 48 n && Nat.leb n 57) || Nat.eqb n 95.

Fixpoint all_chars (p : ascii -> bool) (s : string) : bool :=
  match s with
  | EmptyString => true
  | String c s' => p c && all_chars p s'
  end.

Definition valid_identifier (v : Js.val) : bool :=
  match v with
  | Js.Str (String c rest) => is_letter c && all_chars is_word rest
  | _ => false
  end.

(** The store before the constructor has filled it in. *)
Definition blank (uri0 : string) : Store :=
  {| uri := uri0; clientOpts := []; _params := []; queries := ∅; headers := [];
     batchMode := 0; batch := []; err := None |}.

(** The constructor [PostgresStore(uri)], for a [uri] given as text.
    [params] is [core.normalizeUri(uri).query] as the calls of
    [core.checkType] leave it: every field of its declared type, defaults
    filled in, and [database] there as a string.  A connection string the
    host's [core.checkType] refuses (one without a database, say) fails in
    that function, before the constructor's own checks, and is no input of
    [create]. *)
Definition create (uri0 : string) (params : Js.obj) (w : World) : Result Store * World :=
  let chain : M unit :=
    catch
      (run update (fun s => set_headers the_headers (set_params params s)) ;;
       run (if negb (Js.truthy (Js.get params "database"))
               || negb (valid_identifier (Js.get params "database"))
            then throwError "Uri must have a valid 'database' query parameter" []
            else ret tt) ;;
       run (if Js.truthy (Js.get params "table")
               && negb (valid_identifier (Js.get params "table"))
            then throwError "Optional uri 'table' param must be a valid value" []
            else ret tt) ;;
       run update (set_clientOpts
                     [ ("host", Js.get params "host");
                       ("port", Js.get params "port");
                       ("database", Js.get params "database");
                       ("user", Js.get params "username");
                       ("password", Js.get params "password") ]) ;;
       run update (set_params (Js.del params "password")) ;;
       run io (bootstrap (Js.truthy (Js.get params "createIfMissing"))
                         (Js.get params "table")) ;;
       update (set_queries the_queries))
      attachUri in
  match chain (blank uri0) w with
  | (Ok _, s, w') => (Ok s, w')
  | (Err e, _, w') => (Err e, w')
  end.

Definition startWriting : M unit :=
  do s <- self ;; update (set_batchMode (batchMode s + 1)).

Definition stopWriting : M unit :=
  catch
    (do s <- self ;;
     run (if Z.eqb (batchMode s) 0 then
            throwError "stopWriting() called more times than startWriting()" []
          else ret tt) ;;
     run update (set_batchMode (batchMode s - 1)) ;;
     flushAsync)
    attachUri.

(** One record of a range query: [{zoom, idx, tile?, headers?}]; an [idx]
    that does not parse is NaN. *)
Record Found := {
  found_zoom : Js.val;
  found_idx : option Z;
  found_tile : Js.val;
  found_headers : option Js.obj
}.

(** [parseInt] of a column: the decimal text of an integer, else NaN. *)
Definition parseInt (text : option string) : option Z :=
  match text with
  | Some t => option_map Z.of_int (NilZero.int_of_string t)
  | None => None
  end.

(** The selector handed to [promistreamus]. *)
Definition selector (options : Js.obj) (s : Store) (value : ResultRow) : Found :=
  if Js.truthy (Js.get options "getTiles") then
    {| found_zoom := Js.get options "zoom"; found_idx := parseInt (col_idx value);
       found_tile := buf_val (col_tile value); found_headers := Some (headers s) |}
  else
    {| found_zoom := Js.get options "zoom"; found_idx := parseInt (col_idx value);
       found_tile := Js.Undef; found_headers := None |}.

(** [if (on) { params.push(value); conds += ' AND lhs op $' + params.length }] *)
Definition add_filter (on : bool) (value : Js.val) (lhs : Expr) (op : CmpOp)
    (acc : list Cond * list Js.val) : list Cond * list Js.val :=
  if on then
    let ps := snd acc ++ [value] in
    (fst acc ++ [{| c_lhs := lhs; c_op := op; c_param := length ps |}], ps)
  else acc.

(** The first part of [query]: check the options and build the statement
    and its parameters. *)
Definition range_statement (options : Js.obj) : M (Query * list Js.val) :=
  match Js.as_integer (Js.get options "zoom") with
  | None => throwError "Options must contain integer zoom parameter. Opts=%j"
                       [ArgObj options]
  | Some zoom =>
      run (if negb (Js.is_undefined (Js.get options "idxFrom"))
              && negb (Js.isInteger (Js.get options "idxFrom"))
           then throwError "Options may contain an integer idxFrom parameter. Opts=%j"
                           [ArgObj options]
           else ret tt) ;;
      run (if negb (Js.is_undefined (Js.get options "idxBefore"))
              && negb (Js.isInteger (Js.get options "idxBefore"))
           then throwError "Options may contain an integer idxBefore parameter. Opts=%j"
                           [ArgObj options]
           else ret tt) ;;
      run (if negb (Js.is_undefined (Js.get options "dateBefore"))
              && negb (Js.is_date (Js.get options "dateBefore"))
           then throwError "Options may contain a Date dateBefore parameter. Opts=%j"
                           [ArgObj options]
           else ret tt) ;;
      run (if negb (Js.is_undefined (Js.get options "dateFrom"))
              && negb (Js.is_date (Js.get options "dateFrom"))
           then throwError "Options may contain a Date dateFrom parameter. Opts=%j"
                           [ArgObj options]
           else ret tt) ;;
      run (if negb (Js.is_undefined (Js.get options "biggerThan"))
              && negb (Js.is_number (Js.get options "biggerThan"))
           then throwError "Options may contain a biggerThan numeric parameter. Opts=%j"
                           [ArgObj options]
           else ret tt) ;;
      run (if (negb (Js.is_undefined (Js.get options "smallerThan"))
               && negb (Js.is_number (Js.get options "smallerThan")))
              || Js.val_le (Js.get options "smallerThan") (Js.of_int 0)
           then throwError
                  "Options may contain a smallerThan numeric parameter that is bigger than 0. Opts=%j"
                  [ArgObj options]
           else ret tt) ;;
      let maxEnd := Js.Num (Js.pow4 zoom) in
      let start := if Js.truthy (Js.get options "idxFrom") then Js.get options "idxFrom"
                   else Js.of_int 0 in
      let end_ := if Js.truthy (Js.get options "idxBefore") then Js.get options "idxBefore"
                  else maxEnd in
      run (if Js.val_gt start end_ || Js.val_gt end_ maxEnd
           then throwError "Options must satisfy: idxFrom <= idxBefore <= %d. Opts=%j"
                           [ArgVal maxEnd; ArgObj options]
           else ret tt) ;;
      run (if Js.val_ge (Js.get options "dateFrom") (Js.get options "dateBefore")
           then throwError "Options must satisfy: dateFrom < dateBefore. Opts=%j"
                           [ArgObj options]
           else ret tt) ;;
      let dateFrom := Js.truthy (Js.get options "dateFrom") in
      let dateBefore := Js.truthy (Js.get options "dateBefore") in
      do s <- self ;;
      let fields := FIdx :: (if Js.truthy (Js.get options "getTiles") then [FTile] else []) in
      let built :=
        add_filter (Js.val_lt end_ maxEnd) end_ EIdx OpLt
          (add_filter (Js.val_gt start (Js.of_int 0)) start EIdx OpGe
             (add_filter (Js.truthy (Js.get options "biggerThan"))
                (Js.get options "biggerThan") ELen OpGe
                (add_filter (Js.truthy (Js.get options "smallerThan"))
                   (Js.get options "smallerThan") ELen OpLt
                   ([ {| c_lhs := EZoom; c_op := OpEq; c_param := 2 |} ],
                    [ Js.get (_params s) "table"; Js.get options "zoom" ])))) in
      run (if dateBefore || dateFrom
           then throwError "date filtering is not implemented for postgres store" []
           else ret tt) ;;
      ret ([Select fields (fst built)], snd built)
  end.

(** [query(options)]: the iterator, initialised with the cursor's stream.
    The handlers given to the promise of [client.stream] run when the
    stream is over (see [stream_event]). *)
Definition query (options : Js.obj) : M (Promistreamus.Iterator Found) :=
  do built <- range_statement options ;;
  do s <- self ;;
  let iterator := Promistreamus.promistreamus (selector options s) in
  do events <- (fun s w => let (ev, w') := stream (fst built) (snd built) w in
                           (Ok ev, s, w')) ;;
  ret (Promistreamus.init events iterator).

(** [promise.then(onFulfilled, onRejected)] once the promise is settled; a
    rejection without handler is raised out of band. *)
Definition settle_then (c : Promistreamus.Completion)
    (onFulfilled : Store -> World -> Store * World)
    (onRejected : option (Failure -> Store -> World -> Store * World))
    (s : Store) (w : World) : Store * World :=
  match c with
  | Promistreamus.Completed => onFulfilled s w
  | Promistreamus.Broke e =>
      match onRejected with
      | Some h => h e s w
      | None => (s, unhandled e w)
      end
  end.

(** The stream of a range query emits its next event.  An error that
    finds no call of [next()] waiting is reported as an unhandled
    rejection of the adapter's promise.  When the event ends the stream,
    the handlers that [query] gave to the promise of [client.stream] run:
    [console.log('done ...')], or [console.log('err ...'); self.err = v]. *)
Definition stream_event {A} (it : Promistreamus.Iterator A) (s : Store) (w : World)
  : Promistreamus.Iterator A * Store * World :=
  let w0 := match Promistreamus.unheard it with
            | Some e => unhandled e w
            | None => w
            end in
  match Promistreamus.emit it with
  | (it', None) => (it', s, w0)
  | (it', Some c) =>
      let (s', w') :=
        settle_then c
          (fun s w => (s, print LogDone w))
          (Some (fun v s w => (set_err v s, print (LogErr v) w)))
          s w0 in
      (it', s', w')
  end.

(** What the consumer and the stream do, one after the other. *)
Inductive Action := Pull | Emit.

Definition act {A} (a : Action) (st : Promistreamus.Iterator A * Store * World)
  : Promistreamus.Iterator A * Store * World :=
  match a, st with
  | Pull, (it, s, w) => (Promistreamus.next it, s, w)
  | Emit, (it, s, w) => stream_event it s w
  end.

Definition play {A} (schedule : list Action)
    (st : Promistreamus.Iterator A * Store * World)
  : Promistreamus.Iterator A * Store * World :=
  fold_left (fun st a => act a st) schedule st.

(** The consumer reads to the end: it calls [next()] and waits for the
    answer, [n] times. *)
Definition drain (n : nat) : list Action := concat (repeat [Pull; Emit] n).

End Methods.

End PostgresStore.

(** ** A concrete host and store, for the examples *)

Module Sample.

Import Sql Client PostgresStore.

(** The encoder of the host framework: the bits of [x] and [y] alternate,
    those of [x] lowest. *)
Fixpoint interleave (fuel : nat) (x y : Z) : Z :=
  match fuel with
  | O => 0
  | S fuel' => x mod 2 + 2 * (y mod 2) + 4 * interleave fuel' (x / 2) (y / 2)
  end.

(** Integers print in decimal. *)
Definition decimal (q : Q) : string :=
  match Js.int_of q with
  | Some z => show_Z z
  | None => "NaN"
  end.

Definition host : Host :=
  {| xyToIndex := fun x y _ => interleave 32 x y;
     number_text := decimal;
     date_text := fun _ => EmptyString |}.

(** A connection string with credentials, and its query part as the
    constructor sees it. *)
Definition uri_text : string :=
  "postgres://?database=maps&username=osm&password=hunter2&maxBatchSize=2".

Definition uri_query : Js.obj :=
  [ ("database", Js.Str "maps");
    ("username", Js.Str "osm");
    ("password", Js.Str "hunter2");
    ("maxBatchSize", Js.of_int 2);
    ("table", Js.Str "tiles");
    ("minzoom", Js.of_int 0);
    ("maxzoom", Js.of_int 14) ].

Definition world (t : Table) : World :=
  {| db := {[ "tiles" := t ]}; script := []; log := []; console := []; uncaught := [] |}.

(** The store the constructor builds over an empty table. *)
Definition store : Store :=
  match create (H := host) uri_text uri_query (world []) with
  | (Ok s, _) => s
  | (Err _, _) => blank uri_text
  end.

Definition bytes (s : string) : list byte := map byte_of_ascii (list_ascii_of_string s).

End Sample.

(** ** What the four fixed statements compute *)

Module Spec.

Import Sql.

Definition at_key (z i : Z) (r : Row) : bool :=
  Z.eqb (r_zoom r) z && Z.eqb (r_idx r) i.

Definition with_tile (b : list byte) (r : Row) : Row :=
  {| r_zoom := r_zoom r; r_idx := r_idx r; r_tile := b |}.

(** The rows stored at an address. *)
Definition lookup (z i : Z) (t : Table) : list Row := List.filter (at_key z i) t.

(** UPDATE, then INSERT unless a row is there. *)
Definition upsert (z i : Z) (b : list byte) (t : Table) : Table :=
  let t' := map (fun r => if at_key z i r then with_tile b r else r) t in
  if has_key t' z i then t'
  else t' ++ [{| r_zoom := z; r_idx := i; r_tile := b |}].

Definition remove (z i : Z) (t : Table) : Table :=
  List.filter (fun r => negb (at_key z i r)) t.

(** The rows of zoom [z] with [a <= idx < b], in storage order. *)
Definition in_range (z a b : Z) (t : Table) : list Row :=
  List.filter (fun r => Z.eqb (r_zoom r) z && Z.leb a (r_idx r) && Z.ltb (r_idx r) b) t.

(** Every index stored at zoom [z] lies in [0, 4^z). *)
Definition in_domain (z : Z) (t : Table) : Prop :=
  Forall (fun r => r_zoom r = z -> 0 <= r_idx r < 4 ^ z) t.

End Spec.

(** ** Vocabulary for the statements about the store *)

Module Terms.

Import Sql Client Text PostgresStore.

Section Terms.
Context `{Host}.

(** The error [e] as [attachUri] rethrows it. *)
Definition attach (s : Store) (e : Failure) : Failure :=
  {| cause := cause e; moduleUri := Some (json_obj (_params s)) |}.

(** The store is set up for table [name] and the zoom window [lo..hi]. *)
Record configured (s : Store) (name : string) (lo hi : Z) : Prop := {
  cfg_queries : queries s = the_queries;
  cfg_table : Js.get (_params s) "table" = Js.Str name;
  cfg_minzoom : Js.get (_params s) "minzoom" = Js.of_int lo;
  cfg_maxzoom : Js.get (_params s) "maxzoom" = Js.of_int hi
}.

(** Writes go straight to the database: the nesting counter is zero or no
    maximum batch size is configured. *)
Definition direct (s : Store) : bool :=
  Z.eqb (batchMode s) 0 || negb (Js.truthy (Js.get (_params s) "maxBatchSize")).

(** The entry a write of [data] at [(zoom, idx)] stands for. *)
Definition entry_for (s : Store) (zoom idx : Js.val) (data : option (list byte))
  : BatchEntry :=
  match data with
  | Some (c :: b) =>
      {| Client.query := queries s !! "set";
         Client.params := [Js.get (_params s) "table"; zoom; idx; Js.Buf (c :: b)] |}
  | _ =>
      {| Client.query := queries s !! "delete";
         Client.params := [Js.get (_params s) "table"; zoom; idx] |}
  end.

(** The world after a point read of the tile at [(z, i)]. *)
Definition after_read (name : string) (z i : Z) (t : Table) (w : World) : World :=
  with_db (<[name := t]> (db w))
    (called (CallOneOrNone (Some [Select [FTile] key_conds])
                           [Js.Str name; Js.of_int z; Js.of_int i]) w).

(** Several writes one after the other, whatever each one answers. *)
Definition submit_all (l : list (Js.val * Js.val * option (list byte)))
    (st : Store * World) : Store * World :=
  fold_left
    (fun st e =>
       let '(zoom, idx, data) := e in
       let '(_, s, w) := _storeDataAsync zoom idx data (fst st) (snd st) in
       (s, w))
    l st.

Definition entry_of (s : Store) (e : Js.val * Js.val * option (list byte)) : BatchEntry :=
  let '(zoom, idx, data) := e in entry_for s zoom idx data.

(** The options [{zoom, idxFrom, idxBefore}] of a range query. *)
Definition range_options (zoom a b : Z) : Js.obj :=
  [("zoom", Js.of_int zoom); ("idxFrom", Js.of_int a); ("idxBefore", Js.of_int b)].

(** The conditions and parameters [query] builds for these options: the
    zoom, then the lower bound when it is above zero, then the upper bound
    when it is below [4^zoom]. *)
Definition range_filters (table : Js.val) (zoom a b : Z) : list Cond * list Js.val :=
  add_filter (b <? 4 ^ zoom) (Js.of_int b) EIdx OpLt
    (add_filter (0 <? a) (Js.of_int a) EIdx OpGe
       ([ {| c_lhs := EZoom; c_op := OpEq; c_param := 2 |} ],
        [ table; Js.of_int zoom ])).

(** The records among the answers of [next()]. *)
Definition delivered {A} (l : list (Promistreamus.Settled A)) : list A :=
  flat_map (fun x => match x with Promistreamus.Value a => [a] | _ => [] end) l.

(** An initialised iterator that has seen neither fault nor end and holds
    nothing. *)
Definition reading {A} (sel : ResultRow -> A) (events : list Event)
    (answers : list (Promistreamus.Settled A)) (waiting : nat) : Promistreamus.Iterator A :=
  {| Promistreamus.selectorFunc := sel; Promistreamus.initialised := true;
     Promistreamus.source := events; Promistreamus.ahead := None;
     Promistreamus.fault := None; Promistreamus.ended := false;
     Promistreamus.pending := waiting; Promistreamus.settled := answers |}.

(** The error of the stream behind a range query opened in the world [w]:
    the server's refusal of the statement, or the fault that strikes. *)
Definition refusal (w : World) : Failure :=
  raw (Rejected match next_outcome w with
                | Proceed => QueryFailed
                | Strike _ reason => Fault reason
                end).

(** The calls of [next()] in a schedule. *)
Definition pulls (schedule : list Action) : nat :=
  length (List.filter (fun a => match a with Pull => true | Emit => false end) schedule).

(** The stream has had its say: the schedule holds an event. *)
Definition reported (schedule : list Action) : bool :=
  existsb (fun a => match a with Emit => true | Pull => false end) schedule.

(** The stream speaks before the consumer has called [next()] at all. *)
Definition unawaited (schedule : list Action) : bool :=
  match schedule with
  | Emit :: _ => true
  | _ => false
  end.

(** The iterator over a stream that has reported the error [e], after
    [n] calls of [next()]. *)
Definition refusing {A} (sel : ResultRow -> A) (e : Failure) (n : nat)
  : Promistreamus.Iterator A :=
  {| Promistreamus.selectorFunc := sel; Promistreamus.initialised := true;
     Promistreamus.source := []; Promistreamus.ahead := None;
     Promistreamus.fault := Some e; Promistreamus.ended := false;
     Promistreamus.pending := 0;
     Promistreamus.settled := repeat (Promistreamus.Refused e) n |}.

(** How many grouped submissions a log holds. *)
Definition flush_count (l : list Call) : nat :=
  length (List.filter (fun c => match c with CallBatch _ => true | _ => false end) l).

End Terms.

End Terms.

(** ** The claims under test, as the specification words them *)

Module Claimed.

Import Sql Client Text PostgresStore Terms.

Section Claimed.
Context `{Host}.

(** The specification's reading of [stopWriting]: at zero it fails and
    changes nothing; above zero it decrements, and the pending sequence is
    flushed exactly when the counter goes from one to zero, so that a
    decrement that stays above zero leaves the pending sequence and the
    database alone. *)
Definition stop_claim (s : Store) (w : World) : Prop :=
  let '(r, s', w') := stopWriting s w in
  (batchMode s = 0 -> (exists e, r = Err e) /\ s' = s /\ w' = w)
  /\ (0 < batchMode s ->
      batchMode s' = batchMode s - 1
      /\ (batchMode s = 1 ->
          batch s' = [] /\ (batch s <> [] -> log w' = log w ++ [CallBatch (batch s)]))
      /\ (1 < batchMode s -> batch s' = batch s /\ log w' = log w)).


End Claimed.

End Claimed.

(** ** Concrete situations *)

Module Cases.

Import Sql Client Text PostgresStore Terms Sample.

(** The sample store inside one [startWriting]. *)
Definition buffering : Store := set_batchMode 1 store.

(** The sample store inside two nested [startWriting]s, with one write
    pending. *)
Definition nested : Store :=
  set_batchMode 2
    (set_batch [entry_for store (Js.of_int 2) (Js.of_int 3) (Some (bytes "abc"))] store).

(** A table holding one tile of three bytes at zoom 2, index 3. *)
Definition one_tile : Table := [{| r_zoom := 2; r_idx := 3; r_tile := bytes "abc" |}].

(** The world after the tile with index 5 and then the tile with index 3
    were put at zoom 2, through the store. *)
Definition two_tiles : World :=
  let '(_, s1, w1) := putTile (H := host) 2 3 0 (Some (bytes "five")) store (world []) in
  let '(_, _, w2) := putTile (H := host) 2 1 1 (Some (bytes "three")) s1 w1 in
  w2.

(** The options of a read that asks for the size only. *)
Definition size_only (z i : Z) : Js.obj :=
  [("zoom", Js.of_int z); ("idx", Js.of_int i);
   ("getTile", Js.Bool false); ("getSize", Js.Bool true)].

(** A world whose next call is struck by a fault, after [k] steps. *)
Definition struck (k : nat) (t : Table) : World :=
  {| db := {[ "tiles" := t ]}; script := [Strike k "connection lost"];
     log := []; console := []; uncaught := [] |}.

(** The table of that world. *)
Definition two_rows : Table :=
  [ {| r_zoom := 2; r_idx := 5; r_tile := bytes "five" |};
    {| r_zoom := 2; r_idx := 3; r_tile := bytes "three" |} ].

(** The query part of a connection string whose database name is not an
    identifier. *)
Definition bad_query : Js.obj :=
  [ ("database", Js.Str "9maps");
    ("password", Js.Str "hunter2");
    ("table", Js.Str "tiles");
    ("minzoom", Js.of_int 0);
    ("maxzoom", Js.of_int 14) ].

(** Three writes, for a batch that holds two. *)
Definition three_writes : list (Js.val * Js.val * option (list byte)) :=
  [ (Js.of_int 2, Js.of_int 0, Some (bytes "a"));
    (Js.of_int 2, Js.of_int 1, Some (bytes "b"));
    (Js.of_int 2, Js.of_int 2, None) ].

End Cases.


(** ** The metadata record *)

Module Metadata.

Import Sql Client Text PostgresStore.

Section Metadata.
Context `{Host}.

(** From outside the module: [pckg.version] of the package description and
    the runtime's [JSON.parse], which yields the document or the message of
    its SyntaxError. *)
Variable version : string.
Variable JSON_parse : string -> Js.obj + string.

(** [putInfo(data)]: the document as JSON text in a Buffer, stored under
    zoom -1 with index 0. *)
Definition putInfo (data : Js.obj) : M unit :=
  _storeDataAsync (Js.of_int (-1)) (Js.of_int 0)
    (Some (list_byte_of_string (json_obj data))).

(** The descriptor [getInfo] makes up when nothing is stored. *)
Definition default_info (s : Store) : Js.obj :=
  [ ("tilejson", Js.Str "2.1.0");
    ("name", Js.Str ("PostgresStore " +:+ version));
    ("bounds", Js.Str "-180,-85.0511,180,85.0511");
    ("minzoom", Js.get (_params s) "minzoom");
    ("maxzoom", Js.get (_params s) "maxzoom") ].

(** [getInfo()] *)
Definition getInfo : M Js.obj :=
  catch
    (do row <- queryTileAsync [("info", Js.Bool true)] ;;
     match row with
     | Some r =>
         match tile r with
         | Js.Buf b =>
             match JSON_parse (string_of_list_byte b) with
             | inl doc => ret doc
             | inr message => fail (raw (Thrown message))
             end
         | _ => fail (raw TypeError)
         end
     | None => do s <- self ;; ret (default_info s)
     end)
    attachUri.

End Metadata.

End Metadata.

(** ** Sessions: the calls a user makes, one after the other *)

Module Session.

Import Sql Client Text PostgresStore.

Inductive Op :=
| Start
| Stop
| Flush
| Put (z x y : Z) (data : option (list byte))
| Get (z x y : Z)
| Read (options : Js.obj)
| PutInfo (doc : Js.obj).

Section Session.
Context `{Host}.

(** One call, whatever it answers. *)
Definition step (op : Op) (st : Store * World) : Store * World :=
  match op with
  | Start => let '(_, s, w) := startWriting (fst st) (snd st) in (s, w)
  | Stop => let '(_, s, w) := stopWriting (fst st) (snd st) in (s, w)
  | Flush => let '(_, s, w) := flush (fst st) (snd st) in (s, w)
  | Put z x y data => let '(_, s, w) := putTile z x y data (fst st) (snd st) in (s, w)
  | Get z x y => let '(_, s, w) := getTile z x y (fst st) (snd st) in (s, w)
  | Read options => let '(_, s, w) := queryTileAsync options (fst st) (snd st) in (s, w)
  | PutInfo doc => let '(_, s, w) := Metadata.putInfo doc (fst st) (snd st) in (s, w)
  end.

Definition perform (ops : list Op) (st : Store * World) : Store * World :=
  fold_left (fun st op => step op st) ops st.

(** The nesting counter as the calls alone determine it: a start adds one,
    a stop takes one off unless there is none to take. *)
Definition depth (ops : list Op) (n : Z) : Z :=
  fold_left
    (fun n op =>
       match op with
       | Start => n + 1
       | Stop => if n =? 0 then 0 else n - 1
       | _ => n
       end)
    ops n.

(** [s'] is [s] but for the nesting counter and the pending sequence. *)
Definition same_setup (s s' : Store) : Prop :=
  uri s' = uri s /\ clientOpts s' = clientOpts s /\ _params s' = _params s
  /\ queries s' = queries s /\ headers s' = headers s /\ err s' = err s.

(** The pending sequence after one call: emptied, untouched, or longer by
    one entry that did not take it over the maximum. *)
Definition batch_moves (s s' : Store) : Prop :=
  batch s' = [] \/ batch s' = batch s
  \/ (exists e, batch s' = batch s ++ [e]
                /\ Js.val_gt (Js.of_int (Z.of_nat (length (batch s ++ [e]))))
                             (Js.get (_params s) "maxBatchSize") = false).

End Session.

End Session.

(** ** More concrete situations *)

Module Scenes.

Import Sql Client Text PostgresStore Terms Sample Session.

(** A database without tables. *)
Definition bare : World :=
  {| db := ∅; script := []; log := []; console := []; uncaught := [] |}.

(** The query part of a connection string that asks for the table to be
    created. *)
Definition fresh_query : Js.obj :=
  [ ("database", Js.Str "maps");
    ("password", Js.Str "hunter2");
    ("table", Js.Str "tiles");
    ("createIfMissing", Js.Bool true);
    ("minzoom", Js.of_int 0);
    ("maxzoom", Js.of_int 14) ].

(** A read of the tile and its size. *)
Definition with_size (z i : Z) : Js.obj :=
  [("zoom", Js.of_int z); ("idx", Js.of_int i); ("getSize", Js.Bool true)].

(** A read that asks for the write time. *)
Definition with_write_time (z i : Z) : Js.obj :=
  [("zoom", Js.of_int z); ("idx", Js.of_int i); ("getWriteTime", Js.Bool true)].

(** A range query for the tiles written since the epoch. *)
Definition since_epoch (zoom : Z) : Js.obj :=
  [("zoom", Js.of_int zoom); ("dateFrom", Js.Date 0)].

(** A metadata document. *)
Definition document : Js.obj :=
  [("name", Js.Str "osm"); ("minzoom", Js.of_int 0); ("maxzoom", Js.of_int 14)].

(** A parser that knows one document, as [JSON.stringify] writes it. *)
Definition parse_only (doc : Js.obj) (text : string) : Js.obj + string :=
  if String.eqb text (json_obj (H := host) doc) then inl doc
  else inr "Unexpected token".

(** A session: two nested starts, three writes, the two stops, and one
    stop too many. *)
Definition busy : list Op :=
  [ Start; Start;
    Put 2 0 0 (Some (bytes "a")); Put 2 1 0 (Some (bytes "b")); Put 2 0 1 None;
    Get 2 0 0; Stop; Stop; Stop ].

End Scenes.
(** * Facts about the embedding *)

(** ** Numbers *)

Module JsFacts.

Lemma le_int (a b : Z) : Js.le (inject_Z a) (inject_Z b) = (a <=? b).
Proof. unfold Js.le, Qle_bool; simpl. now rewrite !Z.mul_1_r. Qed.

Lemma lt_int (a b : Z) : Js.lt (inject_Z a) (inject_Z b) = (a <? b).
Proof. unfold Js.lt. rewrite le_int. now rewrite Z.ltb_antisym. Qed.

Lemma ge_int (a b : Z) : Js.ge (inject_Z a) (inject_Z b) = (b <=? a).
Proof. unfold Js.ge. apply le_int. Qed.

Lemma eq_int (a b : Z) : Qeq_bool (inject_Z a) (inject_Z b) = (a =? b).
Proof. unfold Qeq_bool; simpl. now rewrite !Z.mul_1_r. Qed.

Lemma int_of_int (z : Z) : Js.int_of (inject_Z z) = Some z.
Proof.
  unfold Js.int_of. rewrite Qred_identity; [reflexivity |].
  simpl. apply Z.gcd_1_r.
Qed.

Lemma as_integer_int (z : Z) : Js.as_integer (Js.of_int z) = Some z.
Proof. apply int_of_int. Qed.

Lemma isInteger_int (z : Z) : Js.isInteger (Js.of_int z) = true.
Proof. unfold Js.isInteger. now rewrite as_integer_int. Qed.

Lemma val_lt_int (a b : Z) : Js.val_lt (Js.of_int a) (Js.of_int b) = (a <? b).
Proof. apply lt_int. Qed.

Lemma val_gt_int (a b : Z) : Js.val_gt (Js.of_int a) (Js.of_int b) = (b <? a).
Proof. apply lt_int. Qed.

Lemma truthy_int (z : Z) : Js.truthy (Js.of_int z) = negb (z =? 0).
Proof. exact (f_equal negb (eq_int z 0)). Qed.

(** Powers of four with a natural exponent are the integers [4 ^ z]. *)
Lemma pow_pos_int (p : positive) : pow_pos Qmult (4 # 1) p = inject_Z (4 ^ Z.pos p).
Proof.
  induction p as [p IH | p IH |]; simpl pow_pos.
  - rewrite IH. rewrite (Pos2Z.inj_xI p).
    replace (2 * Z.pos p + 1) with (1 + (Z.pos p + Z.pos p)) by lia.
    rewrite Z.pow_add_r by lia. rewrite Z.pow_add_r by lia. reflexivity.
  - rewrite IH. rewrite (Pos2Z.inj_xO p).
    replace (2 * Z.pos p) with (Z.pos p + Z.pos p) by lia.
    rewrite Z.pow_add_r by lia. reflexivity.
  - reflexivity.
Qed.

Lemma pow4_int (z : Z) : 0 <= z -> Js.pow4 z = inject_Z (4 ^ z).
Proof.
  intros Hz. unfold Js.pow4. destruct z as [| p | p]; try lia.
  - reflexivity.
  - simpl. unfold Qpower_positive. apply pow_pos_int.
Qed.

End JsFacts.

(** ** The statements against a table *)

Module SqlFacts.

Import Sql Spec.

Section KeyStatements.
Variables (ps : list Js.val) (z i : Z).
Hypothesis zoom_arg : num_arg ps 2 = Some (inject_Z z).
Hypothesis idx_arg : num_arg ps 3 = Some (inject_Z i).

Lemma holds_key (r : Row) :
  holds ps r PostgresStore.key_conds = Some (at_key z i r).
Proof.
  unfold PostgresStore.key_conds, holds, eval_cond; simpl c_param.
  rewrite zoom_arg, idx_arg. simpl.
  now rewrite !JsFacts.eq_int, andb_true_r.
Qed.

Lemma scan_key (t : Table) :
  scan ps PostgresStore.key_conds t = Some (lookup z i t).
Proof.
  induction t as [| r t IH]; [reflexivity |].
  cbn [scan]. rewrite holds_key, IH. reflexivity.
Qed.

Lemma rewrite_key (b : list byte) (t : Table) :
  rewrite_tiles ps PostgresStore.key_conds b t
  = Some (map (fun r => if at_key z i r then with_tile b r else r) t).
Proof.
  induction t as [| r t IH]; [reflexivity |].
  cbn [rewrite_tiles]. rewrite holds_key, IH. reflexivity.
Qed.

Lemma drop_key (t : Table) :
  drop_rows ps PostgresStore.key_conds t = Some (remove z i t).
Proof.
  induction t as [| r t IH]; [reflexivity |].
  cbn [drop_rows]. rewrite holds_key, IH. unfold remove; simpl.
  now destruct (at_key z i r).
Qed.

End KeyStatements.

Lemma has_key_lookup (z i : Z) (t : Table) :
  has_key t z i = negb (Nat.eqb (length (lookup z i t)) 0).
Proof.
  induction t as [| r t IH]; [reflexivity |].
  unfold has_key, lookup in *; simpl. fold (at_key z i r).
  destruct (at_key z i r); simpl; [reflexivity | exact IH].
Qed.

Lemma lookup_rewritten (z i : Z) (b : list byte) (t : Table) :
  lookup z i (map (fun r => if at_key z i r then with_tile b r else r) t)
  = repeat {| r_zoom := z; r_idx := i; r_tile := b |} (length (lookup z i t)).
Proof.
  induction t as [| r t IH]; [reflexivity |].
  unfold lookup in *; simpl.
  destruct (at_key z i r) eqn:E; simpl.
  - unfold at_key in *; simpl. rewrite E; simpl. rewrite IH.
    apply andb_prop in E as [Ez Ei].
    apply Z.eqb_eq in Ez, Ei. unfold with_tile. now rewrite Ez, Ei.
  - rewrite E. exact IH.
Qed.

Lemma keys_rewritten (z i : Z) (b : list byte) (t : Table) :
  map key (map (fun r => if at_key z i r then with_tile b r else r) t) = map key t.
Proof.
  rewrite map_map. apply map_ext. intros r. now destruct (at_key z i r).
Qed.

Lemma in_lookup (z i : Z) (t : Table) (r : Row) :
  List.In r (lookup z i t) -> key r = (z, i).
Proof.
  unfold lookup. rewrite filter_In. intros [_ E].
  apply andb_prop in E as [Ez Ei]. apply Z.eqb_eq in Ez, Ei.
  unfold key. now rewrite Ez, Ei.
Qed.

Lemma lookup_absent (z i : Z) (t : Table) :
  ~ List.In (z, i) (map key t) -> lookup z i t = [].
Proof.
  intros Hn. destruct (lookup z i t) as [| r l] eqn:E; [reflexivity |].
  exfalso. apply Hn. rewrite <- (in_lookup z i t r) by (rewrite E; now left).
  apply in_map. assert (Hr : List.In r (lookup z i t)) by (rewrite E; now left).
  unfold lookup in Hr. now apply filter_In in Hr.
Qed.

(** Under the primary key an address holds at most one row. *)
Lemma lookup_unique (z i : Z) (t : Table) :
  pk_ok t -> (length (lookup z i t) <= 1)%nat.
Proof.
  unfold pk_ok. induction t as [| r t IH]; simpl; [lia |].
  intros Hnd. apply List.NoDup_cons_iff in Hnd as [Hnotin Hnd].
  unfold lookup in *; simpl.
  destruct (at_key z i r) eqn:E; [| now apply IH].
  simpl. fold (lookup z i t). rewrite lookup_absent; [simpl; lia |].
  apply andb_prop in E as [Ez Ei]. apply Z.eqb_eq in Ez, Ei.
  unfold key in Hnotin. now rewrite Ez, Ei in Hnotin.
Qed.

Lemma lookup_app (z i : Z) (t t' : Table) :
  lookup z i (t ++ t') = lookup z i t ++ lookup z i t'.
Proof. apply List.filter_app. Qed.

Lemma lookup_upsert (z i : Z) (b : list byte) (t : Table) :
  pk_ok t -> lookup z i (upsert z i b t) = [{| r_zoom := z; r_idx := i; r_tile := b |}].
Proof.
  intros Hpk. unfold upsert. rewrite has_key_lookup, lookup_rewritten.
  rewrite repeat_length.
  pose proof (lookup_unique z i t Hpk) as Hle.
  destruct (length (lookup z i t)) as [| [| n]] eqn:E; simpl; try lia.
  - rewrite lookup_app, lookup_rewritten, E.
    unfold lookup, at_key; simpl. now rewrite !Z.eqb_refl.
  - rewrite lookup_rewritten, E. reflexivity.
Qed.


(** *** The primary key survives every statement *)

Lemma keys_rewrite_tiles ps cs b t t' :
  rewrite_tiles ps cs b t = Some t' -> map key t' = map key t.
Proof.
  revert t'. induction t as [| r t IH]; intros t' E; simpl in E.
  - now injection E as <-.
  - destruct (holds ps r cs) as [hit |]; [| discriminate].
    destruct (rewrite_tiles ps cs b t) as [t'' |]; [| discriminate].
    injection E as <-. simpl. rewrite (IH t'' eq_refl).
    now destruct hit.
Qed.

Lemma pk_drop_rows ps cs t t' :
  drop_rows ps cs t = Some t' -> pk_ok t -> pk_ok t' /\ incl (map key t') (map key t).
Proof.
  unfold pk_ok. revert t'. induction t as [| r t IH]; intros t' E Hpk; simpl in E.
  - injection E as <-. split; [exact Hpk | apply incl_refl].
  - destruct (holds ps r cs) as [hit |]; [| discriminate].
    destruct (drop_rows ps cs t) as [t'' |]; [| discriminate].
    injection E as <-. simpl in Hpk. apply List.NoDup_cons_iff in Hpk as [Hnotin Hnd].
    destruct (IH t'' eq_refl Hnd) as [Hnd' Hincl].
    destruct hit; simpl.
    + split; [exact Hnd' | now apply incl_tl].
    + split.
      * apply List.NoDup_cons; [| exact Hnd']. intros Hin. apply Hnotin. now apply Hincl.
      * apply incl_cons; [now left | now apply incl_tl].
Qed.

Lemma has_key_false (z i : Z) (t : Table) :
  has_key t z i = false -> ~ List.In (z, i) (map key t).
Proof.
  unfold has_key. intros E Hin. apply in_map_iff in Hin as (r & Hk & Hin).
  assert (X : existsb (fun r => Z.eqb (r_zoom r) z && Z.eqb (r_idx r) i) t = true).
  { apply existsb_exists. exists r. split; [exact Hin |].
    unfold key in Hk. injection Hk as -> ->. now rewrite !Z.eqb_refl. }
  congruence.
Qed.

Lemma pk_exec_stmt ps s t t' rows :
  exec_stmt ps s t = Some (t', rows) -> pk_ok t -> pk_ok t'.
Proof.
  intros E Hpk. destruct s as [fs cs | p cs | zp ip tp cs | cs]; simpl in E.
  - destruct (scan ps cs t); [| discriminate]. now injection E as <- _.
  - destruct (buf_arg ps p) as [b |]; [| discriminate].
    destruct (rewrite_tiles ps cs b t) as [t1 |] eqn:E1; [| discriminate].
    injection E as <- _. unfold pk_ok. now rewrite (keys_rewrite_tiles _ _ _ _ _ E1).
  - destruct (int_arg ps zp) as [z |]; [| discriminate].
    destruct (int_arg ps ip) as [i |]; [| discriminate].
    destruct (buf_arg ps tp) as [b |]; [| discriminate].
    destruct (scan ps cs t) as [found |]; [| discriminate].
    destruct found as [| r found].
    + destruct (has_key t z i) eqn:Ek; [discriminate |].
      injection E as <- _. unfold pk_ok. rewrite map_app; simpl.
      apply List.NoDup_app; [exact Hpk | |].
      * apply List.NoDup_cons; [intros [] | apply List.NoDup_nil].
      * intros k Hin Hin'. simpl in Hin'. destruct Hin' as [<- | []].
        now apply (has_key_false z i t Ek).
    + now injection E as <- _.
  - destruct (drop_rows ps cs t) as [t1 |] eqn:E1; [| discriminate].
    injection E as <- _. now apply (pk_drop_rows _ _ _ _ E1).
Qed.

Lemma pk_exec_stmts ps q t t' rows :
  exec_stmts ps q t = Some (t', rows) -> pk_ok t -> pk_ok t'.
Proof.
  revert t t' rows. induction q as [| s q IH]; intros t t' rows E Hpk; simpl in E.
  - now injection E as <- _.
  - destruct (exec_stmt ps s t) as [[t1 r1] |] eqn:E1; [| discriminate].
    destruct (exec_stmts ps q t1) as [[t2 r2] |] eqn:E2; [| discriminate].
    injection E as <- _. eapply IH; [exact E2 |]. eapply pk_exec_stmt; eauto.
Qed.

Lemma pk_upsert (z i : Z) (b : list byte) (t : Table) : pk_ok t -> pk_ok (upsert z i b t).
Proof.
  intros Hpk. unfold upsert.
  set (t' := map _ t).
  assert (Hpk' : pk_ok t').
  { unfold pk_ok, t'. now rewrite keys_rewritten. }
  destruct (has_key t' z i) eqn:Ek; [exact Hpk' |].
  unfold pk_ok. rewrite map_app; simpl.
  apply List.NoDup_app; [exact Hpk' | |].
  - apply List.NoDup_cons; [intros [] | apply List.NoDup_nil].
  - intros k Hin Hin'. simpl in Hin'. destruct Hin' as [<- | []].
    now apply (has_key_false z i t' Ek).
Qed.

End SqlFacts.

(** ** The fixed statements through the database handle *)

Module ClientFacts.

Import Sql Spec Client PostgresStore.

Lemma queries_getTile : the_queries !! "getTile" = Some [Select [FTile] key_conds].
Proof. reflexivity. Qed.

Lemma queries_getSize : the_queries !! "getSize" = None.
Proof. reflexivity. Qed.

Lemma queries_set :
  the_queries !! "set" = Some [Update 4 key_conds; InsertUnless 2 3 4 key_conds].
Proof. reflexivity. Qed.

Lemma queries_delete : the_queries !! "delete" = Some [Delete key_conds].
Proof. reflexivity. Qed.

Section OneTable.
Variables (name : string) (z i : Z) (d : gmap string Table) (t : Table).
Hypothesis table_there : d !! name = Some t.

Lemma exec_set (b : list byte) :
  exec [Js.Str name; Js.of_int z; Js.of_int i; Js.Buf b]
       [Update 4 key_conds; InsertUnless 2 3 4 key_conds] d
  = Some (<[name := upsert z i b t]> d, []).
Proof.
  unfold exec. cbn [arg nth_error]. rewrite table_there.
  cbn [exec_stmts exec_stmt].
  change (buf_arg _ 4) with (Some b). cbv beta iota.
  rewrite (SqlFacts.rewrite_key _ z i) by reflexivity.
  change (int_arg _ 2) with (Js.int_of (inject_Z z)).
  change (int_arg _ 3) with (Js.int_of (inject_Z i)).
  rewrite !JsFacts.int_of_int.
  rewrite (SqlFacts.scan_key _ z i) by reflexivity.
  unfold upsert. rewrite SqlFacts.has_key_lookup.
  destruct (lookup z i _) as [| r found]; reflexivity.
Qed.

Lemma exec_delete :
  exec [Js.Str name; Js.of_int z; Js.of_int i] [Delete key_conds] d
  = Some (<[name := remove z i t]> d, []).
Proof.
  unfold exec. cbn [arg nth_error]. rewrite table_there.
  cbn [exec_stmts exec_stmt].
  rewrite (SqlFacts.drop_key _ z i) by reflexivity.
  reflexivity.
Qed.

Lemma exec_getTile :
  exec [Js.Str name; Js.of_int z; Js.of_int i] [Select [FTile] key_conds] d
  = Some (<[name := t]> d, map (project [FTile]) (lookup z i t)).
Proof.
  unfold exec. cbn [arg nth_error]. rewrite table_there.
  cbn [exec_stmts exec_stmt].
  rewrite (SqlFacts.scan_key _ z i) by reflexivity.
  now rewrite app_nil_r.
Qed.

End OneTable.

Lemma next_outcome_with_db d w : next_outcome (with_db d w) = next_outcome w.
Proof. reflexivity. Qed.

End ClientFacts.

(** ** The methods of the store *)

Module StoreFacts.

Import Sql Spec Client Text PostgresStore Terms.

Ltac js_get := cbn [Js.get String.eqb Ascii.eqb Bool.eqb Js.truthy Js.is_undefined negb andb orb].

Section Reads.
Context `{Host}.

Lemma outside_window_int (s : Store) (z lo hi : Z) :
  Js.get (_params s) "minzoom" = Js.of_int lo ->
  Js.get (_params s) "maxzoom" = Js.of_int hi ->
  outside_window (Js.of_int z) s = (z <? lo) || (hi <? z).
Proof.
  intros Hlo Hhi. unfold outside_window. rewrite Hlo, Hhi.
  now rewrite JsFacts.val_lt_int, JsFacts.val_gt_int.
Qed.

Lemma checked_options_ok (options : Js.obj) (s : Store) (w : World) (z i : Z) :
  Js.truthy (Js.get options "info") = false ->
  Js.get options "zoom" = Js.of_int z ->
  Js.get options "idx" = Js.of_int i ->
  0 <= z -> 0 <= i < 4 ^ z ->
  checked_options options s w = (Ok options, s, w).
Proof.
  intros Hinfo Hzoom Hidx Hz Hi. unfold checked_options.
  rewrite Hinfo, Hzoom, Hidx, !JsFacts.as_integer_int.
  rewrite JsFacts.pow4_int by exact Hz.
  change 0%Q with (inject_Z 0).
  rewrite JsFacts.lt_int, JsFacts.ge_int.
  replace (i <? 0) with false by (symmetry; apply Z.ltb_ge; lia).
  replace (4 ^ z <=? i) with false by (symmetry; apply Z.leb_gt; lia).
  reflexivity.
Qed.

Lemma checked_options_point (s : Store) (w : World) (z i : Z) :
  0 <= z -> 0 <= i < 4 ^ z ->
  checked_options [("zoom", Js.of_int z); ("idx", Js.of_int i)] s w
  = (Ok [("zoom", Js.of_int z); ("idx", Js.of_int i)], s, w).
Proof. intros Hz Hi. now apply (checked_options_ok _ s w z i). Qed.

Lemma point_read (s : Store) (w : World) (name : string) (z i : Z) (t : Table) :
  queries s = the_queries ->
  Js.get (_params s) "table" = Js.Str name ->
  0 <= z -> 0 <= i < 4 ^ z ->
  next_outcome w = Proceed ->
  db w !! name = Some t ->
  queryTileAsync [("zoom", Js.of_int z); ("idx", Js.of_int i)] s w
  = match lookup z i t with
    | [] => (Ok None, s, after_read name z i t w)
    | [r] => (Ok (Some {| tile := Js.Buf (r_tile r); size := Js.Undef |}), s,
              after_read name z i t w)
    | _ :: _ :: _ =>
        (Err {| cause := Rejected MultipleRows; moduleUri := Some (json_obj (_params s)) |},
         s, after_read name z i t w)
    end.
Proof.
  intros Hq Htable Hz Hi Hcalm Hdb.
  unfold queryTileAsync, catch, bind.
  rewrite checked_options_point by assumption.
  js_get. unfold ret at 1, self at 1. cbv beta iota.
  rewrite Hq, ClientFacts.queries_getTile, Htable.
  unfold io, oneOrNone. rewrite Hcalm.
  rewrite (ClientFacts.exec_getTile name z i (db w) t Hdb).
  unfold after_read.
  destruct (lookup z i t) as [| r [| r' l]]; reflexivity.
Qed.

(** [getTile] inside the window, over a table that respects the key. *)
Lemma getTile_inside (s : Store) (w : World) (name : string) (lo hi z x y : Z) (t : Table) :
  configured s name lo hi ->
  lo <= z <= hi -> 0 <= z -> 0 <= xyToIndex x y z < 4 ^ z ->
  next_outcome w = Proceed ->
  db w !! name = Some t ->
  pk_ok t ->
  getTile z x y s w
  = match lookup z (xyToIndex x y z) t with
    | r :: _ => (Ok (Js.Buf (r_tile r), headers s), s,
                 after_read name z (xyToIndex x y z) t w)
    | [] => (Err (attach s (raw NoTile)), s, after_read name z (xyToIndex x y z) t w)
    end.
Proof.
  intros [Hq Htable Hlo Hhi] Hwin Hz Hidx Hcalm Hdb Hpk.
  unfold getTile, catch, bind. unfold self at 1.
  rewrite (outside_window_int s z lo hi Hlo Hhi).
  replace (z <? lo) with false by (symmetry; apply Z.ltb_ge; lia).
  replace (hi <? z) with false by (symmetry; apply Z.ltb_ge; lia).
  cbn [orb].
  rewrite (point_read s w name z _ t Hq Htable Hz Hidx Hcalm Hdb).
  pose proof (SqlFacts.lookup_unique z (xyToIndex x y z) t Hpk) as Hle.
  destruct (lookup z (xyToIndex x y z) t) as [| r [| r' l]]; simpl in Hle; try lia;
    reflexivity.
Qed.

End Reads.

Section Writes.
Context `{Host}.

Lemma flush_unfold (s : Store) (w : World) :
  flush s w
  = match batch s with
    | [] => (Ok tt, s, w)
    | e :: es =>
        match batchAsync (e :: es) w with
        | (Ok a, w') => (Ok a, set_batch [] s, w')
        | (Err f, w') => (Err (attach s f), set_batch [] s, w')
        end
    end.
Proof.
  unfold flush, bind. unfold self at 1.
  destruct (batch s) as [| e es]; [reflexivity |].
  unfold update, catch, io.
  destruct (batchAsync (e :: es) w) as [[a | f] w']; reflexivity.
Qed.

Lemma storeData_direct (s : Store) (w : World) (zoom idx : Js.val) (data : option (list byte)) :
  direct s = true ->
  _storeDataAsync zoom idx data s w
  = match none (Client.query (entry_for s zoom idx data))
               (Client.params (entry_for s zoom idx data)) w with
    | (Ok a, w') => (Ok a, s, w')
    | (Err f, w') => (Err (attach s f), s, w')
    end.
Proof.
  unfold direct. intros Hd.
  unfold _storeDataAsync, catch, bind. unfold self at 1.
  destruct data as [[| c b] |]; cbv beta iota; rewrite Hd; unfold io, entry_for;
    cbn [Client.query Client.params];
    match goal with |- context [none ?q ?p w] => destruct (none q p w) as [[a | f] w'] end;
    reflexivity.
Qed.

Lemma storeData_buffered (s : Store) (w : World) (zoom idx : Js.val) (data : option (list byte)) :
  direct s = false ->
  _storeDataAsync zoom idx data s w
  = let s1 := set_batch (batch s ++ [entry_for s zoom idx data]) s in
    if Js.val_gt (Js.of_int (Z.of_nat (length (batch s1))))
                 (Js.get (_params s) "maxBatchSize")
    then match batchAsync (batch s1) w with
         | (Ok a, w') => (Ok a, set_batch [] s1, w')
         | (Err f, w') => (Err (attach s f), set_batch [] s1, w')
         end
    else (Ok tt, s1, w).
Proof.
  unfold direct. intros Hd.
  unfold _storeDataAsync, catch, bind. unfold self at 1.
  assert (E : forall q p,
    (if (batchMode s =? 0) || negb (Js.truthy (Js.get (_params s) "maxBatchSize"))
     then io (none q p)
     else
       run update (set_batch (batch s ++ [{| Client.query := q; Client.params := p |}])) ;;
       do s' <- self ;;
       if Js.val_gt (Js.of_int (Z.of_nat (length (batch s'))))
                    (Js.get (_params s') "maxBatchSize")
       then flushAsync else ret tt) s w
    = let s1 := set_batch (batch s ++ [{| Client.query := q; Client.params := p |}]) s in
      if Js.val_gt (Js.of_int (Z.of_nat (length (batch s1))))
                   (Js.get (_params s) "maxBatchSize")
      then flush s1 w else (Ok tt, s1, w)).
  { intros q p. rewrite Hd. unfold bind, update, self. cbv beta iota zeta.
    change (_params (set_batch _ s)) with (_params s).
    destruct (Js.val_gt _ _); reflexivity. }
  destruct data as [[| c b] |]; cbv beta iota; rewrite E; unfold entry_for;
    cbv zeta;
    match goal with |- context [Js.val_gt ?a ?b] => destruct (Js.val_gt a b) end;
    try reflexivity;
    rewrite flush_unfold;
    match goal with |- context [batch (set_batch ?l s)] =>
      change (batch (set_batch l s)) with l; destruct l as [| e es] eqn:El
    end;
    try (exfalso; eapply app_cons_not_nil; symmetry; eassumption);
    match goal with |- context [batchAsync ?l w] =>
      destruct (batchAsync l w) as [[a | f] w'] end;
    reflexivity.
Qed.

(** What the constructor hands over when it succeeds: the statements in
    place, the parameters without the password, the password with the
    database handle only, direct mode and nothing pending. *)
Lemma create_ready (uri0 : string) (params : Js.obj) (w w' : World) (s : Store) :
  create uri0 params w = (Ok s, w') ->
  queries s = the_queries
  /\ _params s = Js.del params "password"
  /\ Js.get (clientOpts s) "password" = Js.get params "password"
  /\ headers s = the_headers
  /\ uri s = uri0
  /\ batchMode s = 0
  /\ batch s = [].
Proof.
  unfold create, catch, bind, update, throwError, ret, io, attachUri.
  destruct (negb (Js.truthy (Js.get params "database")) || _); [discriminate |].
  destruct (Js.truthy (Js.get params "table") && _); [discriminate |].
  destruct (bootstrap _ _ w) as [[[] | f] w1]; [| discriminate].
  intros E. injection E as <- <-. now repeat split.
Qed.

End Writes.


End StoreFacts.

Module WriteFacts.

Import Sql Spec Client Text PostgresStore Terms.

Section Direct.
Variables (name : string) (z i : Z) (w : World) (t : Table).
Hypothesis calm : next_outcome w = Proceed.
Hypothesis table_there : db w !! name = Some t.

Lemma none_set (b : list byte) :
  none (Some [Update 4 key_conds; InsertUnless 2 3 4 key_conds])
       [Js.Str name; Js.of_int z; Js.of_int i; Js.Buf b] w
  = (Ok tt,
     with_db (<[name := upsert z i b t]> (db w))
       (called (CallNone (Some [Update 4 key_conds; InsertUnless 2 3 4 key_conds])
                         [Js.Str name; Js.of_int z; Js.of_int i; Js.Buf b]) w)).
Proof.
  unfold none. rewrite calm.
  now rewrite (ClientFacts.exec_set name z i (db w) t table_there b).
Qed.

Lemma none_delete :
  none (Some [Delete key_conds]) [Js.Str name; Js.of_int z; Js.of_int i] w
  = (Ok tt,
     with_db (<[name := remove z i t]> (db w))
       (called (CallNone (Some [Delete key_conds])
                         [Js.Str name; Js.of_int z; Js.of_int i]) w)).
Proof.
  unfold none. rewrite calm.
  now rewrite (ClientFacts.exec_delete name z i (db w) t table_there).
Qed.

End Direct.

(** *** Grouped submissions *)

Lemma apply_entries_app (es : list BatchEntry) (e : BatchEntry) (d : gmap string Table) :
  apply_entries (es ++ [e]) d
  = match apply_entries es d with
    | (None, d1) => apply_entries [e] d1
    | (Some r, d1) => (Some r, d1)
    end.
Proof.
  revert d. induction es as [| e' es IH]; intros d.
  - simpl app. cbn [apply_entries]. reflexivity.
  - simpl app. cbn [apply_entries].
    destruct (Client.query e') as [text |]; [| reflexivity].
    destruct (exec (Client.params e') text d) as [[d' rows] |]; [| reflexivity].
    apply IH.
Qed.

(** A table that respects its key still does after any query. *)
Lemma exec_keeps_key (name : string) ps (q : Query) (d d' : gmap string Table) rows :
  exec ps q d = Some (d', rows) ->
  (exists t, d !! name = Some t /\ pk_ok t) ->
  exists t', d' !! name = Some t' /\ pk_ok t'.
Proof.
  unfold exec. intros E (t & Ht & Hpk).
  destruct (arg ps 1) as [[| ? | n | ? | ? | ?] |]; try discriminate.
  destruct (d !! n) as [t0 |] eqn:E0; [| discriminate].
  destruct (exec_stmts ps q t0) as [[t1 r1] |] eqn:E1; [| discriminate].
  injection E as <- _.
  destruct (decide (n = name)) as [-> | Hne].
  - exists t1. rewrite lookup_insert_eq. split; [reflexivity |].
    rewrite Ht in E0. injection E0 as <-. eapply SqlFacts.pk_exec_stmts; eauto.
  - exists t. rewrite lookup_insert_ne by exact Hne. now split.
Qed.

Lemma apply_entries_keep_key (name : string) (es : list BatchEntry) (d : gmap string Table) :
  (exists t, d !! name = Some t /\ pk_ok t) ->
  exists t', snd (apply_entries es d) !! name = Some t' /\ pk_ok t'.
Proof.
  revert d. induction es as [| e es IH]; intros d Hd; [exact Hd |].
  cbn [apply_entries].
  destruct (Client.query e) as [text |]; [| exact Hd].
  destruct (exec (Client.params e) text d) as [[d' rows] |] eqn:E; [| exact Hd].
  apply IH. eapply exec_keeps_key; eauto.
Qed.

Lemma batchAsync_ok (es : list BatchEntry) (w w' : World) :
  batchAsync es w = (Ok tt, w') ->
  exists d, apply_entries es (db w) = (None, d)
            /\ w' = with_db d (called (CallBatch es) w).
Proof.
  unfold batchAsync. destruct (next_outcome w); [| discriminate].
  destruct (apply_entries es (db w)) as [[r |] d]; [discriminate |].
  intros E. injection E as <-. now exists d.
Qed.

Section Buffered.
Context `{Host}.

Lemma configured_set_batch (s : Store) (l : list BatchEntry) name lo hi :
  configured s name lo hi -> configured (set_batch l s) name lo hi.
Proof. intros [? ? ? ?]. now constructor. Qed.

Lemma putTile_inside (s : Store) (w : World) (lo hi z x y : Z) (data : option (list byte)) :
  Js.get (_params s) "minzoom" = Js.of_int lo ->
  Js.get (_params s) "maxzoom" = Js.of_int hi ->
  lo <= z <= hi ->
  putTile z x y data s w
  = _storeDataAsync (Js.of_int z) (Js.of_int (xyToIndex x y z)) data s w.
Proof.
  intros Hlo Hhi Hwin. unfold putTile, bind. unfold self at 1.
  rewrite (StoreFacts.outside_window_int s z lo hi Hlo Hhi).
  replace (z <? lo) with false by (symmetry; apply Z.ltb_ge; lia).
  replace (hi <? z) with false by (symmetry; apply Z.ltb_ge; lia).
  reflexivity.
Qed.

(** Under buffering, a write followed by a flush that both succeed amount
    to one grouped submission of the pending entries and the new one. *)
Lemma store_then_flush (s s1 s2 : Store) (w w1 w2 : World) zoom idx data :
  direct s = false ->
  _storeDataAsync zoom idx data s w = (Ok tt, s1, w1) ->
  flush s1 w1 = (Ok tt, s2, w2) ->
  batchAsync (batch s ++ [entry_for s zoom idx data]) w = (Ok tt, w2)
  /\ s2 = set_batch [] s.
Proof.
  intros Hd Hput Hflush.
  rewrite (StoreFacts.storeData_buffered s w zoom idx data Hd) in Hput.
  cbv zeta in Hput.
  change (batch (set_batch ?l s)) with l in Hput.
  destruct (Js.val_gt _ _).
  - destruct (batchAsync _ w) as [[[] | f] w'] eqn:E; [| discriminate].
    injection Hput as <- <-.
    rewrite StoreFacts.flush_unfold in Hflush. cbn [batch set_batch] in Hflush.
    injection Hflush as <- <-. split; reflexivity.
  - injection Hput as <- <-.
    rewrite StoreFacts.flush_unfold in Hflush. cbn [batch set_batch] in Hflush.
    destruct (batch s ++ [entry_for s zoom idx data]) as [| e es] eqn:El.
    { exfalso. eapply app_cons_not_nil. symmetry. exact El. }
    destruct (batchAsync (e :: es) w) as [[[] | f] w'] eqn:E; [| discriminate].
    injection Hflush as <- <-. split; reflexivity.
Qed.

End Buffered.

End WriteFacts.

(** * Point reads and writes *)

Module PointAccess.

Import Sql Spec Client Text PostgresStore Terms.

Section PointAccess.
Context `{Host}.

(** What a single entry for the tile at [(z, i)] does to a database whose
    table respects the key: afterwards the address holds [rows]. *)
Lemma apply_last (name : string) (z i : Z) (e : BatchEntry) (rows : list Row)
    (es : list BatchEntry) (d d' : gmap string Table) (t : Table) :
  (forall d1 t1, d1 !! name = Some t1 -> pk_ok t1 ->
     exists t2, apply_entries [e] d1 = (None, <[name := t2]> d1)
                /\ pk_ok t2 /\ lookup z i t2 = rows) ->
  d !! name = Some t -> pk_ok t ->
  apply_entries (es ++ [e]) d = (None, d') ->
  exists t', d' !! name = Some t' /\ pk_ok t' /\ lookup z i t' = rows.
Proof.
  intros He Hd Hpk Happ.
  rewrite WriteFacts.apply_entries_app in Happ.
  destruct (WriteFacts.apply_entries_keep_key name es d) as (t1 & Ht1 & Hpk1).
  { now exists t. }
  destruct (apply_entries es d) as [[r |] d1]; [discriminate |].
  cbn [snd] in Ht1.
  destruct (He d1 t1 Ht1 Hpk1) as (t2 & E2 & Hpk2 & Hrows).
  rewrite E2 in Happ. injection Happ as <-.
  exists t2. rewrite lookup_insert_eq. now repeat split.
Qed.

(** C1: for a zoom inside the window (a window of zoom levels, so not
    below zero), coordinates the encoder maps into [0, 4^z) and a non-empty
    payload, [putTile] followed by [getTile] returns the very bytes that
    were put, both when the write goes straight to the database (direct
    mode) and when it is buffered and then flushed successfully. *)
Theorem putTile_getTile_roundtrip (s : Store) (w : World) (name : string)
    (lo hi z x y : Z) (c : byte) (d : list byte) (t : Table) :
  configured s name lo hi ->
  0 <= lo -> lo <= z <= hi -> 0 <= xyToIndex x y z < 4 ^ z ->
  db w !! name = Some t -> pk_ok t ->
  (direct s = true -> next_outcome w = Proceed ->
   exists w1,
     putTile z x y (Some (c :: d)) s w = (Ok tt, s, w1)
     /\ (next_outcome w1 = Proceed ->
         fst (fst (getTile z x y s w1)) = Ok (Js.Buf (c :: d), headers s)))
  /\ (direct s = false ->
      forall s1 w1 s2 w2,
        putTile z x y (Some (c :: d)) s w = (Ok tt, s1, w1) ->
        flush s1 w1 = (Ok tt, s2, w2) ->
        next_outcome w2 = Proceed ->
        fst (fst (getTile z x y s2 w2)) = Ok (Js.Buf (c :: d), headers s)).
Proof.
  intros Hcfg Hlo0 Hwin Hidx Hdb Hpk.
  assert (Hz : 0 <= z) by lia.
  pose proof Hcfg as [Hq Htable Hlo Hhi].
  set (i := xyToIndex x y z) in *.
  split.
  - intros Hd Hcalm.
    rewrite (WriteFacts.putTile_inside s w lo hi z x y _ Hlo Hhi Hwin).
    rewrite (StoreFacts.storeData_direct s w _ _ _ Hd).
    unfold entry_for. cbn [Client.query Client.params].
    rewrite Hq, ClientFacts.queries_set, Htable.
    fold i. rewrite (WriteFacts.none_set name z i w t Hcalm Hdb).
    eexists. split; [reflexivity |].
    intros Hcalm1.
    rewrite (StoreFacts.getTile_inside s _ name lo hi z x y (upsert z i (c :: d) t));
      try assumption.
    + fold i. now rewrite (SqlFacts.lookup_upsert z i (c :: d) t Hpk).
    + cbn [db with_db]. apply lookup_insert_eq.
    + now apply SqlFacts.pk_upsert.
  - intros Hd s1 w1 s2 w2 Hput Hflush Hcalm2.
    rewrite (WriteFacts.putTile_inside s w lo hi z x y _ Hlo Hhi Hwin) in Hput.
    destruct (WriteFacts.store_then_flush s s1 s2 w w1 w2 _ _ _ Hd Hput Hflush)
      as [Hbatch ->].
    apply WriteFacts.batchAsync_ok in Hbatch as (d' & Happ & ->).
    destruct (apply_last name z i
                (entry_for s (Js.of_int z) (Js.of_int i) (Some (c :: d)))
                [{| r_zoom := z; r_idx := i; r_tile := c :: d |}]
                (batch s) (db w) d' t) as (t' & Ht' & Hpk' & Hrows);
      try assumption.
    { intros d1 t1 Hd1 Hpk1. exists (upsert z i (c :: d) t1).
      unfold entry_for. rewrite Hq, ClientFacts.queries_set, Htable.
      cbn [apply_entries Client.query Client.params].
      rewrite (ClientFacts.exec_set name z i d1 t1 Hd1).
      repeat split.
      - now apply SqlFacts.pk_upsert.
      - now apply SqlFacts.lookup_upsert. }
    rewrite (StoreFacts.getTile_inside (set_batch [] s) _ name lo hi z x y t');
      try assumption.
    + fold i. now rewrite Hrows.
    + now apply WriteFacts.configured_set_batch.
Qed.


(** C9: for a zoom outside the configured window [getTile] fails with the
    not-found signal, never a storage fault, and leaves the store and the
    world as they were: no call reaches the database. *)
Theorem getTile_outside_window (s : Store) (w : World) (lo hi z x y : Z) :
  Js.get (_params s) "minzoom" = Js.of_int lo ->
  Js.get (_params s) "maxzoom" = Js.of_int hi ->
  z < lo \/ hi < z ->
  getTile z x y s w = (Err (attach s (raw NoTile)), s, w).
Proof.
  intros Hlo Hhi Hout. unfold getTile, catch, bind. unfold self at 1.
  rewrite (StoreFacts.outside_window_int s z lo hi Hlo Hhi).
  replace ((z <? lo) || (hi <? z)) with true; [reflexivity |].
  symmetry. apply orb_true_iff.
  destruct Hout; [left | right]; now apply Z.ltb_lt.
Qed.

(** C5: a point read in size-only mode ([getTile: false],
    [getSize: true]) looks its statement up under the name [getSize], which
    [self.queries] does not have (the length query is stored as
    [getTileSize]); the database handle is called without a statement and
    rejects, whatever the table holds, so no length is returned. *)
Theorem size_only_read_rejected (s : Store) (w : World) (z i : Z) :
  queries s = the_queries ->
  0 <= z -> 0 <= i < 4 ^ z ->
  queryTileAsync
    [("zoom", Js.of_int z); ("idx", Js.of_int i);
     ("getTile", Js.Bool false); ("getSize", Js.Bool true)] s w
  = (Err (attach s (raw (Rejected InvalidQuery))), s,
     called (CallOneOrNone None [Js.get (_params s) "table"; Js.of_int z; Js.of_int i]) w).
Proof.
  intros Hq Hz Hi.
  unfold queryTileAsync, catch, bind.
  rewrite (StoreFacts.checked_options_ok _ s w z i) by (reflexivity || assumption).
  cbn [Js.get String.eqb Ascii.eqb Bool.eqb Js.truthy Js.is_undefined].
  unfold ret at 1, self at 1. cbv beta iota.
  rewrite Hq, ClientFacts.queries_getSize.
  reflexivity.
Qed.

End PointAccess.

End PointAccess.

(** * The batch buffer *)

Module Batching.

Import Sql Spec Client Text PostgresStore Terms.

Section Batching.
Context `{Host}.

Lemma batchAsync_log (es : list BatchEntry) (w : World) :
  log (snd (batchAsync es w)) = log w ++ [CallBatch es].
Proof.
  unfold batchAsync. destruct (next_outcome w); [| reflexivity].
  destruct (apply_entries es (db w)) as [[r |] d]; reflexivity.
Qed.

Lemma stopWriting_unfold (s : Store) (w : World) :
  stopWriting s w
  = if batchMode s =? 0 then
      (Err (attach s (raw (Thrown ("stopWriting() called more times than startWriting()"
                                   +:+ json_string (uri s))))), s, w)
    else
      match flush (set_batchMode (batchMode s - 1) s) w with
      | (Ok a, s', w') => (Ok a, s', w')
      | (Err f, s', w') => (Err (attach s' f), s', w')
      end.
Proof.
  unfold stopWriting, catch, bind. unfold self at 1.
  destruct (batchMode s =? 0); [reflexivity |].
  unfold ret at 1, update at 1. cbv beta iota. unfold flushAsync.
  destruct (flush _ w) as [[[a | f] s'] w']; reflexivity.
Qed.

(** What a flush leaves behind, whatever the database answers. *)
Lemma flush_effect (s : Store) (w : World) :
  let '(r, s', w') := flush s w in
  s' = set_batch [] s
  /\ (batch s = [] -> r = Ok tt /\ w' = w)
  /\ (batch s <> [] -> log w' = log w ++ [CallBatch (batch s)]).
Proof.
  rewrite StoreFacts.flush_unfold.
  destruct (batch s) as [| e es] eqn:E.
  - repeat split; try congruence.
    destruct s; simpl in *; now subst.
  - pose proof (batchAsync_log (e :: es) w) as Hlog.
    destruct (batchAsync (e :: es) w) as [[a | f] w']; cbn [snd] in Hlog;
      repeat split; try congruence.
Qed.

(** C2 (amended): [stopWriting] at zero fails and leaves the store and
    the world unchanged; above zero it decrements the counter and flushes
    the pending sequence on every call, whether or not the counter reaches
    zero: the pending sequence is detached, and submitted when there is
    one. *)
Theorem stopWriting_counter (s : Store) (w : World) :
  (batchMode s = 0 ->
   stopWriting s w
   = (Err (attach s (raw (Thrown ("stopWriting() called more times than startWriting()"
                                  +:+ json_string (uri s))))), s, w))
  /\ (0 < batchMode s ->
      let '(r, s', w') := stopWriting s w in
      batchMode s' = batchMode s - 1
      /\ batch s' = []
      /\ (batch s = [] -> r = Ok tt /\ w' = w)
      /\ (batch s <> [] -> log w' = log w ++ [CallBatch (batch s)])).
Proof.
  rewrite stopWriting_unfold. split.
  - intros ->. reflexivity.
  - intros Hn. replace (batchMode s =? 0) with false by (symmetry; apply Z.eqb_neq; lia).
    pose proof (flush_effect (set_batchMode (batchMode s - 1) s) w) as Hf.
    destruct (flush _ w) as [[r s'] w']. destruct Hf as (-> & Hempty & Hsome).
    cbn [batchMode batch set_batch set_batchMode] in *.
    destruct r as [[] | f]; cbn [batchMode batch set_batch set_batchMode];
      (split; [reflexivity |]); (split; [reflexivity |]); (split; [| exact Hsome]);
      intros E; destruct (Hempty E) as [Hr Hw].
    + now subst.
    + discriminate.
Qed.

(** C10: when the flush that [stopWriting] performs fails, the caller gets
    the flush's error, the counter stays decremented, and the detached
    entries are gone from the pending sequence: they were submitted once
    and are not queued again. *)
Theorem stopWriting_failed_flush (s s1 : Store) (w w1 : World) (f : Failure) :
  0 < batchMode s ->
  flush (set_batchMode (batchMode s - 1) s) w = (Err f, s1, w1) ->
  stopWriting s w = (Err (attach s f), s1, w1)
  /\ batchMode s1 = batchMode s - 1
  /\ batch s1 = []
  /\ batch s <> []
  /\ log w1 = log w ++ [CallBatch (batch s)].
Proof.
  intros Hn Hflush. rewrite stopWriting_unfold.
  replace (batchMode s =? 0) with false by (symmetry; apply Z.eqb_neq; lia).
  pose proof (flush_effect (set_batchMode (batchMode s - 1) s) w) as Hf.
  rewrite Hflush in *. destruct Hf as (-> & Hempty & Hsome).
  cbn [batchMode batch set_batch set_batchMode] in *.
  assert (Hne : batch s <> []).
  { intros E. now destruct (Hempty E). }
  repeat split; try assumption. now apply Hsome.
Qed.

(** *** Filling the batch *)

Lemma direct_set_batch (s : Store) (b : list BatchEntry) :
  direct (set_batch b s) = direct s.
Proof. reflexivity. Qed.

Lemma submit_below (s : Store) (w : World) (K : Z) l :
  direct s = false ->
  Js.get (_params s) "maxBatchSize" = Js.of_int K ->
  forall b,
    Z.of_nat (length b + length l) <= K ->
    submit_all l (set_batch b s, w) = (set_batch (b ++ map (entry_of s) l) s, w).
Proof.
  intros Hd HK. induction l as [| [[zoom idx] data] l IH]; intros b Hlen.
  - now rewrite app_nil_r.
  - unfold submit_all in *. cbn [fold_left fst snd].
    rewrite (StoreFacts.storeData_buffered (set_batch b s) w zoom idx data Hd).
    cbv zeta. cbn [batch set_batch _params]. rewrite HK, JsFacts.val_gt_int.
    rewrite length_app. cbn [length].
    replace (K <? _) with false
      by (symmetry; apply Z.ltb_ge; cbn [length] in Hlen; lia).
    change (entry_for (set_batch b s) zoom idx data) with (entry_of s (zoom, idx, data)).
    change (set_batch ?x (set_batch b s)) with (set_batch x s).
    rewrite IH.
    + cbn [map]. now rewrite <- app_assoc.
    + rewrite length_app. cbn [length] in *. lia.
Qed.

Lemma submit_over (s : Store) (w : World) (K : Z) (b : list BatchEntry) e :
  direct s = false ->
  Js.get (_params s) "maxBatchSize" = Js.of_int K ->
  Z.of_nat (length b) = K ->
  let '(s2, w2) := submit_all [e] (set_batch b s, w) in
  s2 = set_batch [] s /\ log w2 = log w ++ [CallBatch (b ++ [entry_of s e])].
Proof.
  intros Hd HK Hlen. destruct e as [[zoom idx] data].
  unfold submit_all. cbn [fold_left fst snd].
  rewrite (StoreFacts.storeData_buffered (set_batch b s) w zoom idx data Hd).
  cbv zeta. cbn [batch set_batch _params]. rewrite HK, JsFacts.val_gt_int.
  rewrite length_app. cbn [length].
  replace (K <? _) with true by (symmetry; apply Z.ltb_lt; lia).
  change (entry_for (set_batch b s) zoom idx data) with (entry_of s (zoom, idx, data)).
  pose proof (batchAsync_log (b ++ [entry_of s (zoom, idx, data)]) w) as Hlog.
  destruct (batchAsync _ w) as [[a | f] w']; cbn [snd] in Hlog; split;
    try reflexivity; exact Hlog.
Qed.

(** C7: with a maximum batch size [K] and buffering on, [K] writes under
    one begin reach the database not at all and stay pending in order; the
    write after them submits all [K + 1] entries as one group, and that is
    the only flush; and an explicit flush before the threshold submits
    exactly the pending entries, in order, each once, and leaves none
    pending. *)
Theorem batch_threshold (s : Store) (w : World) (K : Z) l e :
  0 < K -> 0 < batchMode s ->
  Js.get (_params s) "maxBatchSize" = Js.of_int K ->
  batch s = [] ->
  Z.of_nat (length l) = K ->
  (forall n, let '(s1, w1) := submit_all (firstn n l) (s, w) in
             w1 = w /\ batch s1 = map (entry_of s) (firstn n l))
  /\ (let '(s2, w2) := submit_all (l ++ [e]) (s, w) in
      batch s2 = []
      /\ log w2 = log w ++ [CallBatch (map (entry_of s) (l ++ [e]))]
      /\ flush_count (log w2) = S (flush_count (log w)))
  /\ (forall n, let '(s1, w1) := submit_all (firstn n l) (s, w) in
                let '(r, s2, w2) := flush s1 w1 in
                batch s2 = []
                /\ (firstn n l <> [] ->
                    log w2 = log w ++ [CallBatch (map (entry_of s) (firstn n l))])).
Proof.
  intros HK Hmode Hmax Hbatch Hlen.
  assert (Hd : direct s = false).
  { unfold direct. rewrite Hmax, JsFacts.truthy_int.
    replace (batchMode s =? 0) with false by (symmetry; apply Z.eqb_neq; lia).
    replace (K =? 0) with false by (symmetry; apply Z.eqb_neq; lia).
    reflexivity. }
  assert (Hs : s = set_batch [] s).
  { destruct s; simpl in *; now subst. }
  assert (Hbelow : forall n, submit_all (firstn n l) (s, w)
                             = (set_batch (map (entry_of s) (firstn n l)) s, w)).
  { intros n. rewrite Hs at 1.
    rewrite (submit_below s w K (firstn n l) Hd Hmax []); [reflexivity |].
    simpl (length []). rewrite length_take. lia. }
  split; [| split].
  - intros n. rewrite Hbelow. now split.
  - unfold submit_all. rewrite fold_left_app.
    pose proof (Hbelow (length l)) as Hall. rewrite firstn_all in Hall.
    unfold submit_all in Hall. rewrite Hall.
    pose proof (submit_over s w K (map (entry_of s) l) e Hd Hmax) as Hover.
    rewrite length_map in Hover. specialize (Hover Hlen).
    unfold submit_all in Hover.
    destruct (fold_left _ [e] _) as [s2 w2].
    destruct Hover as [-> Hlog]. split; [reflexivity |].
    rewrite map_app. cbn [map]. split; [exact Hlog |].
    rewrite Hlog. unfold flush_count. rewrite List.filter_app, length_app. cbn. lia.
  - intros n. rewrite Hbelow.
    pose proof (flush_effect (set_batch (map (entry_of s) (firstn n l)) s) w) as Hf.
    destruct (flush _ w) as [[r s2] w2]. destruct Hf as (-> & _ & Hsome).
    cbn [batch set_batch] in *. split; [reflexivity |].
    intros Hne. apply Hsome. intros E. apply Hne.
    destruct (firstn n l); [reflexivity | discriminate].
Qed.

End Batching.

End Batching.
(** * The consumer and the stream *)

Module StreamFacts.

Import Sql Spec Client Text PostgresStore Terms.
Import Promistreamus.

(** The events of the stream behind a range query: the error, and nothing
    else. *)
Lemma stream_refused (q : Query) ps (w : World) :
  stream q ps w = ([Error (refusal w)], called (CallStream q ps) w).
Proof. unfold stream, refusal. destruct (next_outcome w); reflexivity. Qed.

Lemma pulls_snoc (l : list Action) (a : Action) :
  pulls (l ++ [a]) = (pulls l + match a with Pull => 1 | Emit => 0 end)%nat.
Proof.
  unfold pulls. rewrite List.filter_app, length_app. destruct a; reflexivity.
Qed.

Lemma reported_snoc (l : list Action) (a : Action) :
  reported (l ++ [a]) = reported l || match a with Emit => true | Pull => false end.
Proof.
  unfold reported. rewrite existsb_app. cbn. destruct a; now rewrite ?orb_false_r.
Qed.

(** Before the stream has reported, no call was made first exactly when
    the stream is next to speak unawaited. *)
Lemma unawaited_quiet (l : list Action) :
  reported l = false ->
  unawaited (l ++ [Emit]) = Nat.eqb (pulls l) 0.
Proof.
  destruct l as [| [|] l]; cbn; [reflexivity | reflexivity | discriminate].
Qed.


Lemma unawaited_after (l : list Action) (a : Action) :
  reported l = true -> unawaited (l ++ [a]) = unawaited l.
Proof. destruct l as [| b l]; [discriminate | reflexivity]. Qed.

Section Consumer.
Context `{Host}.
Context {A : Type}.
Variable sel : ResultRow -> A.

Lemma play_app (l l' : list Action) (st : Iterator A * Store * World) :
  play (l ++ l') st = play l' (play l st).
Proof. apply fold_left_app. Qed.

Lemma drain_S (n : nat) : drain (S n) = [Pull; Emit] ++ drain n.
Proof. reflexivity. Qed.



(** *** Any interleaving of consumer and stream over a refused cursor *)

(** Where the consumer and the stream stand after any schedule over a
    stream that holds the error [e] alone.  Until the stream reports, the
    calls of [next()] wait.  Once it has, every call made so far is
    answered by the rejection, the store has logged and recorded the
    error, and the error was reported as unhandled exactly when the stream
    spoke before the first call. *)
Lemma play_refused (e : Failure) (s : Store) (w : World) (schedule : list Action) :
  play schedule (reading sel [Error e] [] 0, s, w)
  = if reported schedule then
      (refusing sel e (pulls schedule), set_err e s,
       print (LogErr e) (if unawaited schedule then unhandled e w else w))
    else (reading sel [Error e] [] (pulls schedule), s, w).
Proof.
  induction schedule as [| a l IH] using rev_ind; [reflexivity |].
  rewrite play_app, IH, pulls_snoc, reported_snoc.
  destruct (reported l) eqn:Hr; cbn [orb].
  - rewrite (unawaited_after l a Hr).
    destruct a; cbn [play fold_left act].
    + unfold next, refusing. cbn [fault settled]. f_equal. f_equal.
      rewrite Nat.add_1_r. cbn [repeat]. f_equal. symmetry. apply repeat_cons.
    + rewrite Nat.add_0_r. reflexivity.
  - destruct a; cbn [play fold_left act orb].
    + rewrite Nat.add_1_r. reflexivity.
    + rewrite Nat.add_0_r, (unawaited_quiet l Hr).
      unfold stream_event, unheard, emit, reading, refusing.
      cbn [source pending settled app].
      destruct (pulls l); reflexivity.
Qed.

Lemma pulls_drain (n : nat) : pulls (drain n) = n.
Proof.
  induction n as [| n IH]; [reflexivity |].
  rewrite drain_S. unfold pulls in *. cbn. now rewrite IH.
Qed.

Lemma delivered_refused (e : Failure) (n : nat) :
  delivered (repeat (@Refused A e) n) = [].
Proof. induction n as [| n IH]; [reflexivity | exact IH]. Qed.

End Consumer.

End StreamFacts.

(** * Range queries *)

Module RangeFacts.

Import Sql Spec Client Text PostgresStore Terms.
Import Promistreamus.

Section Range.
Context `{Host}.

Lemma start_value (a : Z) :
  (if Js.truthy (Js.of_int a) then Js.of_int a else Js.of_int 0) = Js.of_int a.
Proof.
  rewrite JsFacts.truthy_int. destruct (Z.eqb_spec a 0) as [-> |]; reflexivity.
Qed.

(** The statement [query] builds for [{zoom, idxFrom: a, idxBefore: b}]
    with [b] other than zero. *)
Lemma range_statement_bounds (s : Store) (w : World) (zoom a b : Z) :
  0 <= zoom -> a <= b <= 4 ^ zoom -> b <> 0 ->
  range_statement (range_options zoom a b) s w
  = (Ok ([Select [FIdx] (fst (range_filters (Js.get (_params s) "table") zoom a b))],
         snd (range_filters (Js.get (_params s) "table") zoom a b)), s, w).
Proof.
  intros Hz Hab Hb. unfold range_statement, range_options.
  cbn [Js.get String.eqb Ascii.eqb Bool.eqb].
  rewrite JsFacts.as_integer_int, !JsFacts.isInteger_int.
  rewrite start_value.
  rewrite JsFacts.truthy_int.
  replace (b =? 0) with false by (symmetry; now apply Z.eqb_neq).
  rewrite (JsFacts.pow4_int zoom Hz).
  change (Js.Num (inject_Z (4 ^ zoom))) with (Js.of_int (4 ^ zoom)).
  cbn [negb].
  rewrite !JsFacts.val_gt_int, JsFacts.val_lt_int.
  replace (b <? a) with false by (symmetry; apply Z.ltb_ge; lia).
  replace (4 ^ zoom <? b) with false by (symmetry; apply Z.ltb_ge; lia).
  reflexivity.
Qed.

Section Bounds.
Variables (table : Js.val) (zoom a b : Z).

Lemma holds_bounds (r : Row) :
  (r_zoom r = zoom -> 0 <= r_idx r < 4 ^ zoom) ->
  holds (snd (range_filters table zoom a b)) r (fst (range_filters table zoom a b))
  = Some ((r_zoom r =? zoom) && (a <=? r_idx r) && (r_idx r <? b)).
Proof.
  intros Hdom. unfold range_filters, add_filter.
  destruct (0 <? a) eqn:Ea; destruct (b <? 4 ^ zoom) eqn:Eb;
    cbn [holds eval_cond c_param c_lhs c_op num_arg arg nth_error eval_expr compare_op
         length app fst snd Js.of_int];
    rewrite ?JsFacts.eq_int, ?JsFacts.lt_int, ?JsFacts.ge_int;
    f_equal;
    destruct (Z.eqb_spec (r_zoom r) zoom) as [Ez | Ez]; cbn [andb]; try reflexivity;
    specialize (Hdom Ez);
    apply Z.ltb_lt in Ea || apply Z.ltb_ge in Ea;
    apply Z.ltb_lt in Eb || apply Z.ltb_ge in Eb;
    destruct (Z.leb_spec a (r_idx r)); destruct (Z.ltb_spec (r_idx r) b);
    cbn [andb]; try reflexivity; lia.
Qed.

Lemma scan_bounds (t : Table) :
  in_domain zoom t ->
  scan (snd (range_filters table zoom a b)) (fst (range_filters table zoom a b)) t
  = Some (in_range zoom a b t).
Proof.
  unfold in_domain. induction t as [| r t IH]; intros Hdom; [reflexivity |].
  apply Forall_cons_iff in Hdom as [Hr Hdom].
  cbn [scan]. rewrite (holds_bounds r Hr), (IH Hdom). reflexivity.
Qed.

End Bounds.

(** The statement built for the bounds, with the table name and the
    values put in as [none] and [oneOrNone] do for the point statements,
    selects exactly the rows of the zoom between the bounds, in storage
    order. *)
Lemma statement_selects_range (name : string) (zoom a b : Z) (d : gmap string Table)
    (t : Table) :
  d !! name = Some t -> in_domain zoom t ->
  exec (snd (range_filters (Js.Str name) zoom a b))
       [Select [FIdx] (fst (range_filters (Js.Str name) zoom a b))] d
  = Some (d, map (project [FIdx]) (in_range zoom a b t)).
Proof.
  intros Hd Hdom. unfold exec.
  assert (Harg : arg (snd (range_filters (Js.Str name) zoom a b)) 1 = Some (Js.Str name)).
  { unfold range_filters, add_filter.
    destruct (0 <? a); destruct (b <? 4 ^ zoom); reflexivity. }
  rewrite Harg, Hd. cbn [exec_stmts exec_stmt].
  rewrite (scan_bounds (Js.Str name) zoom a b t Hdom).
  now rewrite app_nil_r, (insert_id d name t Hd).
Qed.

(** Building the statement touches neither the store nor the world. *)
Lemma range_statement_pure (options : Js.obj) (s s' : Store) (w w' : World) r :
  range_statement options s w = (r, s', w') -> s' = s /\ w' = w.
Proof.
  unfold range_statement, bind, throwError, ret, self.
  destruct (Js.as_integer _); [| intros E; injection E as _ <- <-; now split].
  repeat match goal with
         | |- context [if ?c then _ else _] => destruct c
         end;
    intros E; injection E as _ <- <-; now split.
Qed.

(** What [query] returns when it returns an iterator: the statement was
    built and sent, and the iterator reads a stream that holds the error
    alone. *)
Lemma query_inv (options : Js.obj) (s s0 : Store) (w w0 : World) (it0 : Iterator Found) :
  query options s w = (Ok it0, s0, w0) ->
  exists q ps,
    range_statement options s w = (Ok (q, ps), s, w)
    /\ s0 = s /\ w0 = called (CallStream q ps) w
    /\ it0 = reading (selector options s) [Error (refusal w)] [] 0.
Proof.
  unfold query, bind.
  destruct (range_statement options s w) as [[[built | f] s1] w1] eqn:E; [| discriminate].
  pose proof E as E'. apply range_statement_pure in E' as [-> ->].
  unfold self at 1. rewrite StreamFacts.stream_refused. unfold ret.
  intros Hq. injection Hq as <- <- <-.
  destruct built as [q ps]. exists q, ps. now repeat split.
Qed.

(** C6: the range query builds the statement the claim needs, and the
    statement never runs.  For a zoom [Z >= 0] and bounds [a <= b <= 4^Z]
    with [b] other than zero, over a table whose indexes at that zoom lie
    in [0, 4^Z): the statement [query] builds, completed as the point
    statements are, selects exactly the stored rows of zoom [Z] with
    [a <= idx < b]; but [query] hands it to the stream with the table
    placeholder still in it, the server refuses it, and whatever the
    table holds and in whatever order the consumer and the stream act, no
    record is ever yielded: a consumer that calls [next()] [n] times and
    waits for each answer gets [n] rejections. *)
Theorem range_query_refused (s : Store) (w : World) (name : string)
    (zoom a b : Z) (t : Table) :
  Js.get (_params s) "table" = Js.Str name ->
  0 <= zoom -> a <= b <= 4 ^ zoom -> b <> 0 ->
  db w !! name = Some t -> in_domain zoom t ->
  next_outcome w = Proceed ->
  exec (snd (range_filters (Js.Str name) zoom a b))
       [Select [FIdx] (fst (range_filters (Js.Str name) zoom a b))] (db w)
  = Some (db w, map (project [FIdx]) (in_range zoom a b t))
  /\ exists it w0,
       query (range_options zoom a b) s w = (Ok it, s, w0)
       /\ log w0
          = log w ++ [CallStream [Select [FIdx] (fst (range_filters (Js.Str name) zoom a b))]
                                 (snd (range_filters (Js.Str name) zoom a b))]
       /\ (forall schedule,
             delivered (settled (fst (fst (play schedule (it, s, w0))))) = [])
       /\ (forall n,
             settled (fst (fst (play (drain n) (it, s, w0))))
             = repeat (Refused (raw (Rejected QueryFailed))) n).
Proof.
  intros Htable Hz Hab Hb Hdb Hdom Hcalm.
  split; [now apply statement_selects_range |].
  destruct (query (range_options zoom a b) s w) as [[[it | f] s0] w0] eqn:Hq.
  - destruct (query_inv _ _ _ _ _ _ Hq) as (q & ps & Hst & -> & -> & ->).
    rewrite (range_statement_bounds s w zoom a b Hz Hab Hb), Htable in Hst.
    injection Hst as <- <-.
    eexists. eexists. split; [reflexivity |].
    split; [reflexivity |]. split.
    + intros schedule. rewrite StreamFacts.play_refused.
      destruct (reported schedule); cbn [fst settled refusing reading];
        [apply StreamFacts.delivered_refused | reflexivity].
    + intros n. rewrite StreamFacts.play_refused, StreamFacts.pulls_drain.
      unfold refusal. rewrite Hcalm.
      destruct n as [| n]; reflexivity.
  - exfalso. unfold query, bind in Hq.
    rewrite (range_statement_bounds s w zoom a b Hz Hab Hb) in Hq.
    unfold self at 1 in Hq. rewrite StreamFacts.stream_refused in Hq. discriminate Hq.
Qed.


End Range.

End RangeFacts.

(** * The claims on concrete stores *)

Module Examples.

Import Sql Spec Client Text PostgresStore Terms Claimed Sample Cases.
Import Promistreamus.

(** C2 (counterexample): inside two nested [startWriting]s with one write
    pending, [stopWriting] takes the counter from 2 to 1 and still submits
    the pending write. *)
Lemma stopWriting_flushes_when_nested : ~ stop_claim (H := host) nested (world []).
Proof.
  unfold stop_claim.
  destruct (stopWriting (H := host) nested (world [])) as [[r s'] w'] eqn:E.
  vm_compute in E. injection E as <- <- <-.
  intros [_ Hpos].
  destruct Hpos as (_ & _ & Hkeep); [reflexivity |].
  destruct Hkeep as [Hbatch _]; [reflexivity |].
  discriminate Hbatch.
Qed.


(** C4: the store is built from a connection string that carries the
    password; the constructor takes the password out of [_params], yet the
    error [putTile] throws for a zoom outside the window quotes the
    connection string, password included, and has no [moduleUri]. *)
Theorem thrown_error_exposes_password :
  fst (create (H := host) uri_text uri_query (world [])) = Ok store
  /\ Js.get (clientOpts store) "password" = Js.Str "hunter2"
  /\ Js.get (_params store) "password" = Js.Undef
  /\ exists message,
       putTile (H := host) 20 0 0 None store (world [])
       = (Err {| cause := Thrown message; moduleUri := None |}, store, world [])
       /\ contains message "hunter2" = true.
Proof.
  split; [reflexivity |]. split; [reflexivity |]. split; [reflexivity |].
  eexists. split; [vm_compute; reflexivity | vm_compute; reflexivity].
Qed.

(** The constructor itself: when the database name is refused, the error
    gets [moduleUri] from [_params] before the password was taken out. *)
Lemma constructor_failure_exposes_password :
  exists message context,
    fst (create (H := host) "postgres://?database=9maps&password=hunter2" bad_query
           (world []))
    = Err {| cause := Thrown message; moduleUri := Some context |}
    /\ contains context "hunter2" = true.
Proof. eexists. eexists. split; vm_compute; reflexivity. Qed.

(** An upper bound of zero is taken for no upper bound: the statement
    built for the range from 0 to 0 has no condition on [idx]. *)
Lemma range_statement_zero_upper_bound :
  fst (fst (range_statement (H := host) (range_options 2 0 0) store two_tiles))
  = Ok ([Select [FIdx] [ {| c_lhs := EZoom; c_op := OpEq; c_param := 2 |} ]],
        [Js.Str "tiles"; Js.of_int 2]).
Proof. vm_compute. reflexivity. Qed.

End Examples.

(** * The constructor *)

Module Construction.

Import Sql Spec Client Text PostgresStore Terms.

Lemma get_del (o : Js.obj) (k : string) : Js.get (Js.del o k) k = Js.Undef.
Proof.
  induction o as [| [k' v] o IH]; [reflexivity |].
  cbn [Js.del]. destruct (String.eqb k' k) eqn:E; [exact IH |].
  cbn [Js.get]. now rewrite E.
Qed.

Lemma get_del_other (o : Js.obj) (k k' : string) :
  k <> k' -> Js.get (Js.del o k) k' = Js.get o k'.
Proof.
  intros Hne. induction o as [| [k0 v] o IH]; [reflexivity |].
  cbn [Js.del Js.get]. destruct (String.eqb_spec k0 k) as [-> | Hk].
  - destruct (String.eqb_spec k k'); [contradiction | exact IH].
  - cbn [Js.get]. now rewrite IH.
Qed.

Section Construction.
Context `{Host}.

(** X1: a store the constructor hands over is in direct mode with
    nothing pending and the four statements in place; the password is gone
    from [_params], whose other properties are as given, and is kept with
    the options of the database handle; the table it will use is there. *)
Theorem create_establishes (uri0 : string) (params : Js.obj) (w w' : World) (s : Store) :
  create uri0 params w = (Ok s, w') ->
  uri s = uri0 /\ queries s = the_queries /\ headers s = the_headers
  /\ batchMode s = 0 /\ batch s = []
  /\ Js.get (_params s) "password" = Js.Undef
  /\ (forall k, k <> "password" -> Js.get (_params s) k = Js.get params k)
  /\ Js.get (clientOpts s) "password" = Js.get params "password"
  /\ valid_identifier (Js.get params "database") = true
  /\ exists name, Js.get params "table" = Js.Str name /\ is_Some (db w' !! name).
Proof.
  unfold create, catch, bind, update, throwError, ret, io, attachUri.
  destruct (valid_identifier (Js.get params "database")) eqn:Edb;
    [| rewrite orb_true_r; discriminate].
  destruct (negb (Js.truthy (Js.get params "database")) || negb true); [discriminate |].
  destruct (Js.truthy (Js.get params "table") && _); [discriminate |].
  unfold bootstrap.
  destruct (next_outcome w); [| discriminate].
  destruct (Js.get params "table") as [| | name | | |] eqn:Et; try discriminate.
  destruct (db w !! name) as [t |] eqn:Ed.
  - intros E. injection E as <- <-. cbn.
    repeat split; try reflexivity.
    + apply get_del.
    + intros k Hk. apply get_del_other. congruence.
    + exists name. split; [reflexivity |]. now rewrite Ed.
  - destruct (Js.truthy (Js.get params "createIfMissing")); [| discriminate].
    intros E. injection E as <- <-. cbn.
    repeat split; try reflexivity.
    + apply get_del.
    + intros k Hk. apply get_del_other. congruence.
    + exists name. split; [reflexivity |]. now rewrite lookup_insert_eq.
Qed.

(** X2: a database name that is not an identifier, the empty name
    included, makes the constructor fail before any call to the database;
    the error quotes the connection string and carries the parameters as
    they then are, the password among them. *)
Theorem create_rejects_database (uri0 : string) (params : Js.obj) (w : World)
    (name : string) :
  Js.get params "database" = Js.Str name ->
  valid_identifier (Js.Str name) = false ->
  create uri0 params w
  = (Err {| cause := Thrown ("Uri must have a valid 'database' query parameter"
                             +:+ json_string uri0);
            moduleUri := Some (json_obj params) |}, w).
Proof.
  intros Hname Hbad. unfold create, catch, bind, update, throwError, ret, attachUri.
  rewrite Hname, Hbad, orb_true_r. reflexivity.
Qed.

(** X3: with a valid database name and table name and a database that
    answers, the constructor never touches a table that exists; a missing
    table is created empty when [createIfMissing] is set, and otherwise the
    constructor fails, the error carrying the parameters without the
    password; no other table changes. *)
Theorem create_bootstrap (uri0 : string) (params : Js.obj) (w : World) (name : string) :
  valid_identifier (Js.get params "database") = true ->
  Js.get params "table" = Js.Str name ->
  valid_identifier (Js.Str name) = true ->
  next_outcome w = Proceed ->
  match db w !! name with
  | Some _ => exists s w', create uri0 params w = (Ok s, w') /\ db w' = db w
  | None =>
      if Js.truthy (Js.get params "createIfMissing")
      then exists s w', create uri0 params w = (Ok s, w')
                        /\ db w' = <[name := []]> (db w)
      else exists w', create uri0 params w
                      = (Err {| cause := Rejected QueryFailed;
                                moduleUri := Some (json_obj (Js.del params "password")) |},
                         w')
                      /\ db w' = db w
  end.
Proof.
  intros Hdb Htable Hvalid Hcalm.
  assert (Htruthy : Js.truthy (Js.get params "database") = true).
  { destruct (Js.get params "database") as [| | d | | |]; try discriminate.
    destruct d; [discriminate | reflexivity]. }
  unfold create, catch, bind, update, throwError, ret, io, attachUri, bootstrap.
  cbv beta zeta.
  rewrite Hdb, Htruthy, Htable, Hvalid. cbn [negb orb andb].
  rewrite andb_false_r. cbv beta iota.
  rewrite Hcalm.
  destruct (db w !! name) as [t |].
  - eexists. eexists. split; reflexivity.
  - destruct (Js.truthy (Js.get params "createIfMissing")).
    + eexists. eexists. split; reflexivity.
    + eexists. split; reflexivity.
Qed.

End Construction.

End Construction.

(** * What the methods refuse *)

Module Guards.

Import Sql Spec Client Text PostgresStore Terms.

Lemma get_put_other (o : Js.obj) (k k' : string) (v : Js.val) :
  k <> k' -> Js.get (Js.put o k v) k' = Js.get o k'.
Proof.
  intros Hne. induction o as [| [k0 v0] o IH]; cbn [Js.put Js.get].
  - destruct (String.eqb_spec k k'); [contradiction | reflexivity].
  - destruct (String.eqb_spec k0 k) as [-> | Hk]; cbn [Js.get].
    + destruct (String.eqb_spec k k'); [contradiction | reflexivity].
    + now rewrite IH.
Qed.

Section Guards.
Context `{Host}.

(** X4: a write for a zoom outside the window is refused with an error
    that names the zoom and the window and quotes the connection string;
    nothing reaches the database, nothing is queued, and the error carries
    no [moduleUri]. *)
Theorem putTile_outside_window (s : Store) (w : World) (lo hi z x y : Z)
    (data : option (list byte)) :
  Js.get (_params s) "minzoom" = Js.of_int lo ->
  Js.get (_params s) "maxzoom" = Js.of_int hi ->
  z < lo \/ hi < z ->
  putTile z x y data s w
  = (Err (raw (Thrown
       (format
          "This PostgresStore source cannot save zoom %d, because its configured for zooms %d..%d"
          [ArgVal (Js.of_int z); ArgVal (Js.of_int lo); ArgVal (Js.of_int hi)]
        +:+ json_string (uri s)))), s, w).
Proof.
  intros Hlo Hhi Hout. unfold putTile, bind. unfold self at 1.
  rewrite (StoreFacts.outside_window_int s z lo hi Hlo Hhi), Hlo, Hhi.
  replace ((z <? lo) || (hi <? z)) with true; [reflexivity |].
  symmetry. apply orb_true_iff.
  destruct Hout; [left | right]; now apply Z.ltb_lt.
Qed.

(** The options after the address check: refused with a thrown error, or
    passed on with every option but [zoom] and [idx] as given. *)
Lemma checked_options_cases (options : Js.obj) (s : Store) (w : World) :
  (exists message, checked_options options s w = (Err (raw (Thrown message)), s, w))
  \/ (exists opts, checked_options options s w = (Ok opts, s, w)
                   /\ forall k, k <> "zoom" -> k <> "idx" -> Js.get opts k = Js.get options k).
Proof.
  unfold checked_options, throwError, ret.
  destruct (Js.truthy (Js.get options "info")).
  - right. eexists. split; [reflexivity |].
    intros k Hz Hi. rewrite !get_put_other; congruence.
  - destruct (Js.as_integer (Js.get options "zoom")) as [zoom |]; [| left; eexists; reflexivity].
    destruct (Js.as_integer (Js.get options "idx")) as [idx |]; [| left; eexists; reflexivity].
    destruct (Js.lt _ _ || Js.ge _ _); [left; eexists; reflexivity |].
    right. eexists. split; reflexivity.
Qed.

(** X5: a point read whose zoom or idx is not an integer, or whose idx
    lies outside [0, 4^zoom), is refused before any call to the database. *)
Theorem queryTileAsync_rejects_address (options : Js.obj) (s : Store) (w : World) :
  Js.truthy (Js.get options "info") = false ->
  Js.isInteger (Js.get options "zoom") = false
  \/ Js.isInteger (Js.get options "idx") = false
  \/ (exists z i, Js.get options "zoom" = Js.of_int z /\ Js.get options "idx" = Js.of_int i
                  /\ 0 <= z /\ (i < 0 \/ 4 ^ z <= i)) ->
  exists message,
    queryTileAsync options s w = (Err (attach s (raw (Thrown message))), s, w).
Proof.
  intros Hinfo Hbad.
  assert (Hc : exists message,
             checked_options options s w = (Err (raw (Thrown message)), s, w)).
  { unfold checked_options, throwError. rewrite Hinfo. unfold Js.isInteger in Hbad.
    destruct Hbad as [Hz | [Hi | (z & i & Hz & Hi & Hz0 & Hout)]].
    - destruct (Js.as_integer (Js.get options "zoom")); [discriminate |].
      eexists; reflexivity.
    - destruct (Js.as_integer (Js.get options "zoom")); [| eexists; reflexivity].
      destruct (Js.as_integer (Js.get options "idx")); [discriminate |].
      eexists; reflexivity.
    - rewrite Hz, Hi, !JsFacts.as_integer_int, (JsFacts.pow4_int z Hz0).
      change 0%Q with (inject_Z 0). rewrite JsFacts.lt_int, JsFacts.ge_int.
      replace ((i <? 0) || (4 ^ z <=? i)) with true; [eexists; reflexivity |].
      symmetry. apply orb_true_iff.
      destruct Hout; [left; now apply Z.ltb_lt | right; now apply Z.leb_le]. }
  destruct Hc as [message Hc]. exists message.
  unfold queryTileAsync, catch, bind. now rewrite Hc.
Qed.

(** X6: a point read that asks for the write time is always refused, for
    a tile as for the metadata record, before any call to the database. *)
Theorem queryTileAsync_rejects_write_time (options : Js.obj) (s : Store) (w : World) :
  Js.truthy (Js.get options "getWriteTime") = true ->
  exists message,
    queryTileAsync options s w = (Err (attach s (raw (Thrown message))), s, w).
Proof.
  intros Hwt. unfold queryTileAsync, catch, bind.
  destruct (checked_options_cases options s w) as [[message Hc] | (opts & Hc & Hsame)];
    rewrite Hc.
  - now exists message.
  - rewrite (Hsame "getWriteTime") by discriminate. rewrite Hwt.
    unfold throwError. eexists. reflexivity.
Qed.

(** X7: a range query with a Date as [dateFrom] or [dateBefore] is always
    refused: no statement is sent and no cursor is opened. *)
Theorem query_rejects_dates (options : Js.obj) (s : Store) (w : World) :
  Js.is_date (Js.get options "dateFrom") = true
  \/ Js.is_date (Js.get options "dateBefore") = true ->
  exists message, query options s w = (Err (raw (Thrown message)), s, w).
Proof.
  intros Hdate.
  assert (Hd : Js.truthy (Js.get options "dateBefore")
               || Js.truthy (Js.get options "dateFrom") = true).
  { apply orb_true_iff.
    destruct Hdate as [Hf | Hb]; [right | left];
      match goal with
      | Hx : Js.is_date ?v = true |- _ => destruct v; try discriminate; reflexivity
      end. }
  assert (Hr : exists message,
             range_statement options s w = (Err (raw (Thrown message)), s, w)).
  { unfold range_statement. cbv zeta. unfold bind, throwError, ret, self.
    rewrite Hd.
    destruct (Js.as_integer _); [| eexists; reflexivity].
    repeat match goal with
           | |- context [if ?c then _ else _] => destruct c
           end;
      eexists; reflexivity. }
  destruct Hr as [message Hr]. exists message.
  unfold query, bind. now rewrite Hr.
Qed.

(** X8: a range query whose bounds are inverted, or whose upper bound
    lies beyond [4^zoom], is refused: no statement is sent and no cursor is
    opened. *)
Theorem query_rejects_bounds (s : Store) (w : World) (zoom a b : Z) :
  0 <= zoom -> b <> 0 -> b < a \/ 4 ^ zoom < b ->
  exists message,
    query (range_options zoom a b) s w = (Err (raw (Thrown message)), s, w).
Proof.
  intros Hz Hb Hbad.
  assert (Hr : exists message,
             range_statement (range_options zoom a b) s w
             = (Err (raw (Thrown message)), s, w)).
  { unfold range_statement, range_options.
    cbn [Js.get String.eqb Ascii.eqb Bool.eqb].
    rewrite JsFacts.as_integer_int, !JsFacts.isInteger_int.
    rewrite RangeFacts.start_value, JsFacts.truthy_int.
    replace (b =? 0) with false by (symmetry; now apply Z.eqb_neq).
    rewrite (JsFacts.pow4_int zoom Hz).
    change (Js.Num (inject_Z (4 ^ zoom))) with (Js.of_int (4 ^ zoom)).
    cbn [negb].
    rewrite !JsFacts.val_gt_int.
    replace ((b <? a) || (4 ^ zoom <? b)) with true.
    - eexists. reflexivity.
    - symmetry. apply orb_true_iff.
      destruct Hbad; [left | right]; now apply Z.ltb_lt. }
  destruct Hr as [message Hr]. exists message.
  unfold query, bind. now rewrite Hr.
Qed.

End Guards.

End Guards.

(** * What a call leaves alone *)

Module Isolation.

Import Sql Spec Client Text PostgresStore Terms.

Lemma exec_select_db ps fs cs (d d' : gmap string Table) rows :
  exec ps [Select fs cs] d = Some (d', rows) -> d' = d.
Proof.
  unfold exec. destruct (arg ps 1) as [[| | name | | |] |]; try discriminate.
  destruct (d !! name) as [t |] eqn:Hd; [| discriminate].
  cbn [exec_stmts exec_stmt]. destruct (scan ps cs t); [| discriminate].
  intros [= <- _]. now apply insert_id.
Qed.

Lemma oneOrNone_reads (q : option Query) ps (w : World) :
  q = None \/ (exists fs cs, q = Some [Select fs cs]) ->
  db (snd (oneOrNone q ps w)) = db w
  /\ log (snd (oneOrNone q ps w)) = log w ++ [CallOneOrNone q ps].
Proof.
  intros [-> | (fs & cs & ->)]; unfold oneOrNone; [now split |].
  destruct (next_outcome w); [| now split].
  destruct (exec ps [Select fs cs] (db w)) as [[d rows] |] eqn:Hexec; [| now split].
  apply exec_select_db in Hexec. subst d.
  destruct rows as [| r [| r' l]]; now split.
Qed.

Lemma lookup_upsert_other (z i z' i' : Z) (b : list byte) (t : Table) :
  (z, i) <> (z', i') -> lookup z' i' (upsert z i b t) = lookup z' i' t.
Proof.
  intros Hne.
  assert (Hoff : forall r, at_key z i r = true -> at_key z' i' r = false).
  { intros r Hr. unfold at_key in *. apply andb_true_iff in Hr as [Hz Hi].
    apply Z.eqb_eq in Hz, Hi. apply andb_false_iff.
    destruct (Z.eqb_spec (r_zoom r) z'); [| now left].
    destruct (Z.eqb_spec (r_idx r) i'); [| now right].
    exfalso. apply Hne. congruence. }
  assert (Hmap : lookup z' i' (map (fun r => if at_key z i r then with_tile b r else r) t)
                 = lookup z' i' t).
  { unfold lookup. induction t as [| r t IH]; [reflexivity |].
    cbn [map List.filter]. rewrite IH.
    destruct (at_key z i r) eqn:Hr; [| reflexivity].
    change (at_key z' i' (with_tile b r)) with (at_key z' i' r).
    now rewrite (Hoff r Hr). }
  unfold upsert. cbv zeta.
  destruct (has_key _ z i); [exact Hmap |].
  rewrite SqlFacts.lookup_app, Hmap.
  unfold lookup at 2. cbn [List.filter].
  rewrite (Hoff {| r_zoom := z; r_idx := i; r_tile := b |}).
  - apply app_nil_r.
  - unfold at_key. cbn. now rewrite !Z.eqb_refl.
Qed.

Lemma lookup_remove_other (z i z' i' : Z) (t : Table) :
  (z, i) <> (z', i') -> lookup z' i' (remove z i t) = lookup z' i' t.
Proof.
  intros Hne. unfold lookup, remove.
  induction t as [| r t IH]; [reflexivity |].
  cbn [List.filter].
  destruct (at_key z i r) eqn:Hr; cbn [negb List.filter]; rewrite IH.
  - replace (at_key z' i' r) with false; [reflexivity |].
    symmetry. unfold at_key in *. apply andb_true_iff in Hr as [Hz Hi].
    apply Z.eqb_eq in Hz, Hi. apply andb_false_iff.
    destruct (Z.eqb_spec (r_zoom r) z'); [| now left].
    destruct (Z.eqb_spec (r_idx r) i'); [| now right].
    exfalso. apply Hne. congruence.
  - reflexivity.
Qed.

Lemma pk_remove (z i : Z) (t : Table) : pk_ok t -> pk_ok (remove z i t).
Proof.
  unfold pk_ok, remove. induction t as [| r t IH]; [intros _; constructor |].
  cbn [map List.filter]. intros Hnd. apply List.NoDup_cons_iff in Hnd as [Hnin Hnd].
  destruct (negb (at_key z i r)); [| now apply IH].
  cbn [map]. apply List.NoDup_cons_iff. split; [| now apply IH].
  intros Hin. apply Hnin. apply in_map_iff in Hin as (r' & Hk & Hin).
  apply in_map_iff. exists r'. split; [exact Hk |].
  now apply List.filter_In in Hin as [Hin _].
Qed.

Section Isolation.
Context `{Host}.

(** X9: reading never writes.  Over the four fixed statements, a point
    read ([queryTileAsync], whatever its options) and [getTile] leave the
    store object and the database as they were, and make at most one call
    to the database. *)
Theorem reads_never_write (s : Store) (w : World) :
  queries s = the_queries ->
  (forall options,
     let '(_, s', w') := queryTileAsync options s w in
     s' = s /\ db w' = db w /\ (length (log w') <= S (length (log w)))%nat)
  /\ (forall z x y,
        let '(_, s', w') := getTile z x y s w in
        s' = s /\ db w' = db w /\ (length (log w') <= S (length (log w)))%nat).
Proof.
  intros Hq.
  assert (Hread : forall options,
             let '(_, s', w') := queryTileAsync options s w in
             s' = s /\ db w' = db w /\ (length (log w') <= S (length (log w)))%nat).
  { intros options. unfold queryTileAsync, catch, bind.
    destruct (Guards.checked_options_cases options s w) as [[message Hc] | (opts & Hc & _)];
      rewrite Hc; [unfold attachUri; repeat split; lia |].
    destruct (Js.truthy (Js.get opts "getWriteTime"));
      [unfold throwError, attachUri; repeat split; lia |].
    unfold ret at 1, self at 1. cbv beta iota zeta.
    set (q := if Js.truthy _ then queries s !! "getTile" else queries s !! "getSize").
    set (ps := [Js.get (_params s) "table"; Js.get opts "zoom"; Js.get opts "idx"]).
    assert (Hshape : q = None \/ (exists fs cs, q = Some [Select fs cs])).
    { subst q. rewrite Hq, ClientFacts.queries_getTile, ClientFacts.queries_getSize.
      destruct (Js.truthy _); [right; eauto | now left]. }
    destruct (oneOrNone_reads q ps w Hshape) as [Hdb Hlog].
    unfold io. destruct (oneOrNone q ps w) as [[row | f] w1]; cbn [snd] in Hdb, Hlog.
    - assert (Hlen : (length (log w1) <= S (length (log w)))%nat)
        by (rewrite Hlog, length_app; cbn; lia).
      destruct row as [r |]; [| unfold ret; now repeat split].
      repeat match goal with
             | |- context [if ?c then _ else _] => destruct c
             | |- context [match col_tile r with _ => _ end] => destruct (col_tile r)
             end;
        unfold ret, fail, attachUri; now repeat split.
    - unfold attachUri. repeat split; [exact Hdb |].
      rewrite Hlog, length_app; cbn; lia. }
  split; [exact Hread |].
  intros z x y. unfold getTile, catch, bind. unfold self at 1.
  destruct (outside_window (Js.of_int z) s).
  - unfold fail, attachUri. repeat split; lia.
  - specialize (Hread [("zoom", Js.of_int z); ("idx", Js.of_int (xyToIndex x y z))]).
    destruct (queryTileAsync _ s w) as [[[row | f] s1] w1];
      destruct Hread as (-> & Hdb & Hlog).
    + destruct row; unfold fail, self, ret, attachUri; cbv beta iota; now repeat split.
    + unfold attachUri. now repeat split.
Qed.

(** A direct write at [(z, i)]: it succeeds, the table still respects the
    key, and every other address holds what it held. *)
Lemma direct_write_frame (s : Store) (w : World) (name : string) (lo hi z i : Z)
    (data : option (list byte)) (t : Table) :
  configured s name lo hi ->
  db w !! name = Some t -> pk_ok t ->
  direct s = true -> next_outcome w = Proceed ->
  exists w1 t1,
    _storeDataAsync (Js.of_int z) (Js.of_int i) data s w = (Ok tt, s, w1)
    /\ db w1 !! name = Some t1 /\ pk_ok t1
    /\ forall z' i', (z, i) <> (z', i') -> lookup z' i' t1 = lookup z' i' t.
Proof.
  intros [Hq Htable _ _] Hdb Hpk Hd Hcalm.
  rewrite (StoreFacts.storeData_direct s w _ _ _ Hd).
  unfold entry_for.
  destruct data as [[| c b] |]; cbn [Client.query Client.params];
    rewrite Hq, ?ClientFacts.queries_set, ?ClientFacts.queries_delete, Htable.
  1, 3: rewrite (WriteFacts.none_delete name z i w t Hcalm Hdb);
    eexists; exists (remove z i t);
    (split; [reflexivity |]);
    (split; [cbn [db with_db]; apply lookup_insert_eq |]);
    (split; [now apply pk_remove |]);
    intros z' i' Hne; now apply lookup_remove_other.
  rewrite (WriteFacts.none_set name z i w t Hcalm Hdb).
  eexists; exists (upsert z i (c :: b) t).
  split; [reflexivity |].
  split; [cbn [db with_db]; apply lookup_insert_eq |].
  split; [now apply SqlFacts.pk_upsert |].
  intros z' i' Hne. now apply lookup_upsert_other.
Qed.

(** X10: a write touches one address.  After a direct [putTile] at
    [(z, x, y)], with a payload or without, and after a direct [putInfo],
    [getTile] answers for every other address of the window what it
    answered before. *)
Theorem writes_leave_other_tiles (s : Store) (w : World) (name : string) (lo hi : Z)
    (t : Table) :
  configured s name lo hi -> 0 <= lo ->
  db w !! name = Some t -> pk_ok t ->
  direct s = true -> next_outcome w = Proceed ->
  (forall z x y data,
     lo <= z <= hi ->
     exists w1,
       putTile z x y data s w = (Ok tt, s, w1)
       /\ forall z' x' y',
            lo <= z' <= hi -> 0 <= xyToIndex x' y' z' < 4 ^ z' ->
            (z, xyToIndex x y z) <> (z', xyToIndex x' y' z') ->
            next_outcome w1 = Proceed ->
            fst (fst (getTile z' x' y' s w1)) = fst (fst (getTile z' x' y' s w)))
  /\ (forall doc,
        exists w1,
          Metadata.putInfo doc s w = (Ok tt, s, w1)
          /\ forall z' x' y',
               lo <= z' <= hi -> 0 <= xyToIndex x' y' z' < 4 ^ z' ->
               next_outcome w1 = Proceed ->
               fst (fst (getTile z' x' y' s w1)) = fst (fst (getTile z' x' y' s w))).
Proof.
  intros Hcfg Hlo Hdb Hpk Hd Hcalm.
  assert (Hsame : forall w1 t1 z i z' x' y',
             db w1 !! name = Some t1 -> pk_ok t1 ->
             (forall z' i', (z, i) <> (z', i') -> lookup z' i' t1 = lookup z' i' t) ->
             lo <= z' <= hi -> 0 <= xyToIndex x' y' z' < 4 ^ z' ->
             (z, i) <> (z', xyToIndex x' y' z') ->
             next_outcome w1 = Proceed ->
             fst (fst (getTile z' x' y' s w1)) = fst (fst (getTile z' x' y' s w))).
  { intros w1 t1 z i z' x' y' Hdb1 Hpk1 Hframe Hwin Hidx Hne Hcalm1.
    rewrite (StoreFacts.getTile_inside s w1 name lo hi z' x' y' t1); try assumption; [| lia].
    rewrite (StoreFacts.getTile_inside s w name lo hi z' x' y' t); try assumption; [| lia].
    rewrite (Hframe _ _ Hne).
    now destruct (lookup z' (xyToIndex x' y' z') t). }
  split.
  - intros z x y data Hwin.
    destruct Hcfg as [Hq Htable Hmin Hmax].
    rewrite (WriteFacts.putTile_inside s w lo hi z x y data Hmin Hmax Hwin).
    destruct (direct_write_frame s w name lo hi z (xyToIndex x y z) data t)
      as (w1 & t1 & Hput & Hdb1 & Hpk1 & Hframe); try assumption; [now split |].
    exists w1. split; [exact Hput |].
    intros z' x' y' Hwin' Hidx' Hne Hcalm1.
    apply (Hsame w1 t1 z (xyToIndex x y z)); assumption.
  - intros doc. unfold Metadata.putInfo.
    destruct (direct_write_frame s w name lo hi (-1) 0
                (Some (list_byte_of_string (json_obj doc))) t)
      as (w1 & t1 & Hput & Hdb1 & Hpk1 & Hframe); try assumption.
    exists w1. split; [exact Hput |].
    intros z' x' y' Hwin' Hidx' Hcalm1.
    apply (Hsame w1 t1 (-1) 0); try assumption.
    intros [= Hz _]. lia.
Qed.

End Isolation.

End Isolation.

(** * Sequences of calls *)

Module Sessions.

Import Sql Spec Client Text PostgresStore Terms Session.

Section Sessions.
Context `{Host}.

Lemma same_setup_refl (s : Store) : same_setup s s.
Proof. now repeat split. Qed.

Lemma same_setup_trans (s s1 s2 : Store) :
  same_setup s s1 -> same_setup s1 s2 -> same_setup s s2.
Proof.
  unfold same_setup. intros (? & ? & ? & ? & ? & ?) (? & ? & ? & ? & ? & ?).
  repeat split; congruence.
Qed.

(** A point read returns the store object it was given. *)
Lemma queryTileAsync_store (options : Js.obj) (s : Store) (w : World) :
  snd (fst (queryTileAsync options s w)) = s.
Proof.
  unfold queryTileAsync, catch, bind.
  destruct (Guards.checked_options_cases options s w) as [[message Hc] | (opts & Hc & _)];
    rewrite Hc; [reflexivity |].
  destruct (Js.truthy (Js.get opts "getWriteTime")); [reflexivity |].
  unfold ret at 1, self at 1. cbv beta iota zeta. unfold io.
  match goal with |- context [oneOrNone ?q ?ps w] => destruct (oneOrNone q ps w) as [[row | f] w1] end;
    [| reflexivity].
  destruct row as [r |]; [| reflexivity].
  repeat match goal with
         | |- context [if ?c then _ else _] => destruct c
         | |- context [match col_tile r with _ => _ end] => destruct (col_tile r)
         end; reflexivity.
Qed.

Lemma getTile_store (z x y : Z) (s : Store) (w : World) :
  snd (fst (getTile z x y s w)) = s.
Proof.
  unfold getTile, catch, bind. unfold self at 1.
  destruct (outside_window (Js.of_int z) s); [reflexivity |].
  pose proof (queryTileAsync_store
                [("zoom", Js.of_int z); ("idx", Js.of_int (xyToIndex x y z))] s w) as Hs.
  destruct (queryTileAsync _ s w) as [[[row | f] s1] w1]; cbn in Hs; subst s1;
    [| reflexivity].
  destruct row; reflexivity.
Qed.

Lemma storeData_store (zoom idx : Js.val) (data : option (list byte))
    (s : Store) (w : World) :
  let s' := snd (fst (_storeDataAsync zoom idx data s w)) in
  same_setup s s' /\ batchMode s' = batchMode s /\ batch_moves s s'.
Proof.
  destruct (direct s) eqn:Hd.
  - rewrite (StoreFacts.storeData_direct s w _ _ _ Hd).
    destruct (none _ _ w) as [[a | f] w']; cbn [fst snd];
      (split; [apply same_setup_refl |]); (split; [reflexivity |]);
      right; now left.
  - rewrite (StoreFacts.storeData_buffered s w _ _ _ Hd). cbv zeta.
    destruct (Js.val_gt _ _) eqn:Hover.
    + destruct (batchAsync _ w) as [[a | f] w']; cbn [fst snd];
        (split; [now repeat split |]); (split; [reflexivity |]); now left.
    + cbn [fst snd]. split; [now repeat split |]. split; [reflexivity |].
      right. right. eexists. split; [reflexivity |]. exact Hover.
Qed.

Lemma step_store (op : Op) (s : Store) (w : World) :
  let s' := fst (step op (s, w)) in
  same_setup s s' /\ batchMode s' = depth [op] (batchMode s) /\ batch_moves s s'.
Proof.
  destruct op as [| | | z x y data | z x y | options | doc];
    unfold step, depth; cbn [fst snd fold_left].
  - unfold startWriting, bind, self, update. cbn.
    split; [now repeat split |]. split; [reflexivity |]. right. now left.
  - rewrite Batching.stopWriting_unfold.
    destruct (batchMode s =? 0) eqn:Hz.
    + cbn. split; [apply same_setup_refl |].
      apply Z.eqb_eq in Hz. split; [exact Hz |]. right. now left.
    + pose proof (Batching.flush_effect (set_batchMode (batchMode s - 1) s) w) as Hf.
      destruct (flush _ w) as [[[a | f] s1] w1]; destruct Hf as (-> & _);
        cbn; (split; [now repeat split |]); (split; [reflexivity |]); now left.
  - pose proof (Batching.flush_effect s w) as Hf.
    destruct (flush s w) as [[r s1] w1]. destruct Hf as (-> & _).
    cbn. split; [now repeat split |]. split; [reflexivity |]. now left.
  - unfold putTile, bind, self. cbv beta iota.
    destruct (outside_window (Js.of_int z) s).
    + cbn. split; [apply same_setup_refl |]. split; [reflexivity |]. right. now left.
    + unfold ret. cbv beta iota.
      pose proof (storeData_store (Js.of_int z) (Js.of_int (xyToIndex x y z)) data s w) as Hs.
      destruct (_storeDataAsync _ _ data s w) as [[r s1] w1]. exact Hs.
  - pose proof (getTile_store z x y s w) as Hs.
    destruct (getTile z x y s w) as [[r s1] w1]. cbn in Hs |- *. subst s1.
    split; [apply same_setup_refl |]. split; [reflexivity |]. right. now left.
  - pose proof (queryTileAsync_store options s w) as Hs.
    destruct (queryTileAsync options s w) as [[r s1] w1]. cbn in Hs |- *. subst s1.
    split; [apply same_setup_refl |]. split; [reflexivity |]. right. now left.
  - unfold Metadata.putInfo.
    pose proof (storeData_store (Js.of_int (-1)) (Js.of_int 0)
                  (Some (list_byte_of_string (json_obj doc))) s w) as Hs.
    destruct (_storeDataAsync _ _ _ s w) as [[r s1] w1]. exact Hs.
Qed.

Lemma perform_app (l l' : list Op) (st : Store * World) :
  perform (l ++ l') st = perform l' (perform l st).
Proof. unfold perform. apply fold_left_app. Qed.

Lemma depth_app (l l' : list Op) (n : Z) : depth (l ++ l') n = depth l' (depth l n).
Proof. unfold depth. apply fold_left_app. Qed.

(** X11: whatever calls are made, in whatever order and whether they
    succeed or fail, the store object keeps its configuration (connection
    string, parameters, statements, headers); the nesting counter never
    goes below zero; and with a maximum batch size of [K] the pending
    sequence never holds more than [K] entries between calls. *)
Theorem session_invariant (ops : list Op) (s : Store) (w : World) (K : Z) :
  Js.get (_params s) "maxBatchSize" = Js.of_int K -> 0 <= K ->
  0 <= batchMode s -> Z.of_nat (length (batch s)) <= K ->
  let s' := fst (perform ops (s, w)) in
  same_setup s s' /\ 0 <= batchMode s' /\ Z.of_nat (length (batch s')) <= K.
Proof.
  intros HK HK0. revert s w HK.
  induction ops as [| op ops IH]; intros s w HK Hmode Hlen.
  - cbn. split; [apply same_setup_refl |]. now split.
  - change (perform (op :: ops) (s, w)) with (perform ops (step op (s, w))).
    pose proof (step_store op s w) as Hstep.
    destruct (step op (s, w)) as [s1 w1]. cbn [fst] in Hstep.
    destruct Hstep as (Hsame & Hdepth & Hbatch).
    assert (HK1 : Js.get (_params s1) "maxBatchSize" = Js.of_int K).
    { destruct Hsame as (_ & _ & -> & _). exact HK. }
    assert (Hmode1 : 0 <= batchMode s1).
    { rewrite Hdepth. unfold depth. destruct op; cbn [fold_left]; try lia.
      destruct (Z.eqb_spec (batchMode s) 0); lia. }
    assert (Hlen1 : Z.of_nat (length (batch s1)) <= K).
    { destruct Hbatch as [-> | [-> | (e & -> & Hover)]]; [cbn; lia | exact Hlen |].
      rewrite HK, JsFacts.val_gt_int in Hover. apply Z.ltb_ge in Hover. exact Hover. }
    specialize (IH s1 w1 HK1 Hmode1 Hlen1). cbv zeta in IH.
    destruct IH as (Hsame' & Hmode' & Hlen').
    split; [exact (same_setup_trans _ _ _ Hsame Hsame') |]. now split.
Qed.

(** X12: the nesting counter depends on the starts and stops alone.
    After any sequence of calls it is what counting gives: one up for
    each [startWriting], one down for each [stopWriting] that found it
    above zero, whatever was written or read in between and whether the
    flushes went through.  So as many stops as starts bring it back. *)
Theorem counter_tracks_nesting (ops : list Op) (s : Store) (w : World) :
  batchMode (fst (perform ops (s, w))) = depth ops (batchMode s)
  /\ forall n, 0 <= batchMode s ->
       batchMode (fst (perform (ops ++ repeat Start n ++ repeat Stop n) (s, w)))
       = batchMode (fst (perform ops (s, w))).
Proof.
  assert (Htrack : forall ops s w,
             batchMode (fst (perform ops (s, w))) = depth ops (batchMode s)).
  { clear. intros ops. induction ops as [| op ops IH]; intros s w; [reflexivity |].
    change (perform (op :: ops) (s, w)) with (perform ops (step op (s, w))).
    pose proof (step_store op s w) as Hstep.
    destruct (step op (s, w)) as [s1 w1]. cbn [fst] in Hstep.
    destruct Hstep as (_ & Hdepth & _).
    rewrite IH, Hdepth. reflexivity. }
  split; [apply Htrack |].
  intros n Hmode. rewrite !Htrack, !depth_app.
  assert (Hpos : 0 <= depth ops (batchMode s)).
  { clear -Hmode. revert Hmode. generalize (batchMode s).
    induction ops as [| op ops IH]; intros c Hc; [exact Hc |].
    change (depth (op :: ops) c) with (depth ops (depth [op] c)).
    apply IH. unfold depth. destruct op; cbn [fold_left]; try lia.
    destruct (Z.eqb_spec c 0); lia. }
  revert Hpos. generalize (depth ops (batchMode s)). clear.
  induction n as [| n IH]; intros c Hc; [reflexivity |].
  change (repeat Start (S n)) with ([Start] ++ repeat Start n).
  rewrite depth_app.
  replace (repeat Stop (S n)) with (repeat Stop n ++ [Stop])
    by (symmetry; apply repeat_cons).
  rewrite depth_app.
  change (depth [Start] c) with (c + 1).
  assert (Hup : forall m d, 0 <= d -> depth (repeat Start m) d = d + Z.of_nat m).
  { clear. induction m as [| m IH]; intros d Hd; [cbn; lia |].
    change (repeat Start (S m)) with ([Start] ++ repeat Start m).
    rewrite depth_app. change (depth [Start] d) with (d + 1). rewrite IH; lia. }
  assert (Hdown : forall m d, Z.of_nat m <= d -> depth (repeat Stop m) d = d - Z.of_nat m).
  { clear. induction m as [| m IH]; intros d Hd; [cbn; lia |].
    change (repeat Stop (S m)) with ([Stop] ++ repeat Stop m).
    rewrite depth_app.
    replace (depth [Stop] d) with (d - 1).
    - rewrite IH; lia.
    - unfold depth. cbn [fold_left]. destruct (Z.eqb_spec d 0); lia. }
  rewrite Hup by lia. rewrite Hdown by lia.
  replace (c + 1 + Z.of_nat n - Z.of_nat n) with (c + 1) by lia.
  unfold depth. cbn [fold_left]. destruct (Z.eqb_spec (c + 1) 0); lia.
Qed.

(** X13: a flush is final.  Whether the submission went through or
    failed, the pending sequence is gone: a second flush right after makes
    no call and succeeds, so the entries of a failed group are never sent
    again. *)
Theorem flush_twice (s : Store) (w : World) :
  let '(_, s1, w1) := flush s w in
  batch s1 = [] /\ flush s1 w1 = (Ok tt, s1, w1).
Proof.
  pose proof (Batching.flush_effect s w) as Hf.
  destruct (flush s w) as [[r s1] w1]. destruct Hf as (-> & _).
  split; [reflexivity |].
  now rewrite StoreFacts.flush_unfold.
Qed.

End Sessions.

End Sessions.

(** * Sizes and the metadata record *)

Module Answers.

Import Sql Spec Client Text PostgresStore Terms.

Section Answers.
Context `{Host}.

(** X14: a point read that asks for the size along with the tile (the
    tile is read unless [getTile] is given and falsy) answers the stored
    blob and its length in bytes, or [false] when nothing is stored. *)
Theorem read_with_size (options : Js.obj) (s : Store) (w : World) (name : string)
    (z i : Z) (t : Table) :
  queries s = the_queries ->
  Js.get (_params s) "table" = Js.Str name ->
  Js.truthy (Js.get options "info") = false ->
  Js.get options "zoom" = Js.of_int z ->
  Js.get options "idx" = Js.of_int i ->
  0 <= z -> 0 <= i < 4 ^ z ->
  Js.truthy (Js.get options "getWriteTime") = false ->
  Js.get options "getTile" = Js.Undef \/ Js.truthy (Js.get options "getTile") = true ->
  Js.truthy (Js.get options "getSize") = true ->
  next_outcome w = Proceed ->
  db w !! name = Some t -> pk_ok t ->
  fst (fst (queryTileAsync options s w))
  = match lookup z i t with
    | r :: _ => Ok (Some {| tile := Js.Buf (r_tile r);
                            size := Js.of_int (Z.of_nat (length (r_tile r))) |})
    | [] => Ok None
    end.
Proof.
  intros Hq Htable Hinfo Hzoom Hidx Hz Hi Hwt Htile Hsize Hcalm Hdb Hpk.
  unfold queryTileAsync, catch, bind.
  rewrite (StoreFacts.checked_options_ok options s w z i) by assumption.
  rewrite Hwt. unfold ret at 1, self at 1. cbv beta iota zeta.
  assert (Ht : Js.truthy (if Js.is_undefined (Js.get options "getTile") then Js.Bool true
                          else Js.get options "getTile") = true).
  { destruct Htile as [-> | Htile]; [reflexivity |].
    now destruct (Js.is_undefined _). }
  assert (Hs : Js.truthy (if Js.is_undefined (Js.get options "getSize") then Js.Bool false
                          else Js.get options "getSize") = true).
  { destruct (Js.get options "getSize"); try discriminate; exact Hsize. }
  rewrite Ht, Hs, Hq, ClientFacts.queries_getTile, Htable, Hzoom, Hidx.
  unfold io, oneOrNone. rewrite Hcalm.
  rewrite (ClientFacts.exec_getTile name z i (db w) t Hdb).
  pose proof (SqlFacts.lookup_unique z i t Hpk) as Hle.
  destruct (lookup z i t) as [| r [| r' l]]; simpl in Hle; try lia; reflexivity.
Qed.

(** The read behind [getInfo]: the address check is skipped and the row
    at zoom -1, index 0 is fetched. *)
Lemma info_read (s : Store) (w : World) (name : string) (t : Table) :
  queries s = the_queries ->
  Js.get (_params s) "table" = Js.Str name ->
  next_outcome w = Proceed ->
  db w !! name = Some t -> pk_ok t ->
  queryTileAsync [("info", Js.Bool true)] s w
  = (match lookup (-1) 0 t with
     | r :: _ => Ok (Some {| tile := Js.Buf (r_tile r); size := Js.Undef |})
     | [] => Ok None
     end, s, after_read name (-1) 0 t w).
Proof.
  intros Hq Htable Hcalm Hdb Hpk.
  unfold queryTileAsync, catch, bind, checked_options.
  StoreFacts.js_get. cbn [Js.put String.eqb Ascii.eqb Bool.eqb].
  unfold ret at 1. StoreFacts.js_get. unfold ret at 1, self at 1. cbv beta iota.
  rewrite Hq, ClientFacts.queries_getTile, Htable.
  unfold io, oneOrNone. rewrite Hcalm.
  rewrite (ClientFacts.exec_getTile name (-1) 0 (db w) t Hdb).
  unfold after_read.
  pose proof (SqlFacts.lookup_unique (-1) 0 t Hpk) as Hle.
  destruct (lookup (-1) 0 t) as [| r [| r' l]]; simpl in Hle; try lia; reflexivity.
Qed.

Variable version : string.
Variable JSON_parse : string -> Js.obj + string.

(** X15: with no metadata record stored, [getInfo] answers the default
    descriptor: TileJSON 2.1.0, the package name with its version, the
    bounds of the whole map, and the zoom window of the store. *)
Theorem getInfo_default (s : Store) (w : World) (name : string) (t : Table) :
  queries s = the_queries ->
  Js.get (_params s) "table" = Js.Str name ->
  next_outcome w = Proceed ->
  db w !! name = Some t -> pk_ok t ->
  lookup (-1) 0 t = [] ->
  fst (fst (Metadata.getInfo version JSON_parse s w))
  = Ok [ ("tilejson", Js.Str "2.1.0");
         ("name", Js.Str ("PostgresStore " +:+ version));
         ("bounds", Js.Str "-180,-85.0511,180,85.0511");
         ("minzoom", Js.get (_params s) "minzoom");
         ("maxzoom", Js.get (_params s) "maxzoom") ].
Proof.
  intros Hq Htable Hcalm Hdb Hpk Hnone.
  unfold Metadata.getInfo, catch, bind.
  rewrite (info_read s w name t Hq Htable Hcalm Hdb Hpk), Hnone.
  reflexivity.
Qed.


End Answers.

End Answers.

(** * Pending writes *)

Module Pending.

Import Sql Spec Client Text PostgresStore Terms.

Section Pending.
Context `{Host}.

(** A point read does not look at the pending sequence. *)
Lemma getTile_ignores_batch (z x y : Z) (b : list BatchEntry) (s : Store) (w : World) :
  fst (fst (getTile z x y (set_batch b s) w)) = fst (fst (getTile z x y s w))
  /\ snd (getTile z x y (set_batch b s) w) = snd (getTile z x y s w).
Proof.
  unfold getTile, queryTileAsync, checked_options, catch, bind, self, ret, fail, io,
    throwError, attachUri, outside_window.
  cbv beta iota zeta. StoreFacts.js_get. cbn [set_batch _params queries uri headers].
  repeat (cbn [set_batch _params queries uri headers];
          match goal with
          | |- context [if ?c then _ else _] => destruct c
          | |- context [match ?x with Some _ => _ | None => _ end] => destruct x
          | |- context [oneOrNone ?q ?ps w] =>
              destruct (oneOrNone q ps w) as [[[? |] | ?] ?]
          end);
    split; reflexivity.
Qed.

(** X18: a buffered write cannot be read back before the flush.  With
    the counter above zero and fewer than [maxBatchSize] entries pending
    after it, [putTile] makes no call to the database and only queues the
    entry; a [getTile] for the same address right after answers what it
    answered before the write. *)
Theorem pending_write_invisible (s : Store) (w : World) (lo hi K z x y : Z)
    (data : option (list byte)) :
  Js.get (_params s) "minzoom" = Js.of_int lo ->
  Js.get (_params s) "maxzoom" = Js.of_int hi ->
  Js.get (_params s) "maxBatchSize" = Js.of_int K ->
  lo <= z <= hi ->
  batchMode s <> 0 ->
  Z.of_nat (length (batch s)) < K ->
  exists s1,
    putTile z x y data s w = (Ok tt, s1, w)
    /\ batch s1
       = batch s ++ [entry_for s (Js.of_int z) (Js.of_int (xyToIndex x y z)) data]
    /\ fst (fst (getTile z x y s1 w)) = fst (fst (getTile z x y s w)).
Proof.
  intros Hlo Hhi HK Hwin Hmode Hlen.
  assert (Hd : direct s = false).
  { unfold direct. rewrite HK, JsFacts.truthy_int.
    replace (batchMode s =? 0) with false by (symmetry; now apply Z.eqb_neq).
    replace (K =? 0) with false by (symmetry; apply Z.eqb_neq; lia).
    reflexivity. }
  rewrite (WriteFacts.putTile_inside s w lo hi z x y data Hlo Hhi Hwin).
  rewrite (StoreFacts.storeData_buffered s w _ _ _ Hd). cbv zeta.
  cbn [batch set_batch]. rewrite HK, JsFacts.val_gt_int, length_app.
  replace (K <? Z.of_nat (length (batch s) + length [_])) with false
    by (symmetry; apply Z.ltb_ge; cbn [length]; lia).
  eexists. split; [reflexivity |]. split; [reflexivity |].
  apply getTile_ignores_batch.
Qed.

End Pending.

End Pending.

(** * From the constructor to the first tile *)

Module EndToEnd.

Import Sql Spec Client Text PostgresStore Terms.

Section EndToEnd.
Context `{Host}.

(** The table a constructed store finds: the one that was there, or an
    empty one. *)
Lemma create_table (uri0 : string) (params : Js.obj) (w w' : World) (s : Store)
    (name : string) :
  create uri0 params w = (Ok s, w') ->
  Js.get params "table" = Js.Str name ->
  db w' !! name = Some (match db w !! name with Some t => t | None => [] end).
Proof.
  unfold create, catch, bind, update, throwError, ret, io, attachUri.
  destruct (negb (Js.truthy (Js.get params "database")) || _); [discriminate |].
  destruct (Js.truthy (Js.get params "table") && _); [discriminate |].
  unfold bootstrap.
  destruct (next_outcome w); [| discriminate].
  intros E Et. rewrite Et in E.
  destruct (db w !! name) as [t |] eqn:Ed.
  - injection E as _ <-. exact Ed.
  - destruct (Js.truthy (Js.get params "createIfMissing")); [| discriminate].
    injection E as _ <-. cbn. apply lookup_insert_eq.
Qed.

(** A constructed store is set up for its table and its zoom window, and
    writes directly. *)
Lemma create_configured (uri0 : string) (params : Js.obj) (w w' : World) (s : Store)
    (name : string) (lo hi : Z) :
  create uri0 params w = (Ok s, w') ->
  Js.get params "table" = Js.Str name ->
  Js.get params "minzoom" = Js.of_int lo ->
  Js.get params "maxzoom" = Js.of_int hi ->
  configured s name lo hi /\ direct s = true /\ headers s = the_headers.
Proof.
  intros Hc Htable Hlo Hhi.
  apply StoreFacts.create_ready in Hc as (Hq & Hp & _ & Hh & _ & Hmode & _).
  split; [| split; [unfold direct; now rewrite Hmode | exact Hh]].
  split; [exact Hq | | |]; rewrite Hp, Construction.get_del_other by discriminate;
    assumption.
Qed.

(** X19: from the constructor to the first tile.  A store constructed
    over a table that was missing serves no tile at first: [getTile] for
    an address of its window fails with the not-found signal.  Once
    [putTile] has stored a payload there, [getTile] answers that payload,
    with the protobuf content type and the gzip encoding as headers. *)
Theorem fresh_store_round_trip (uri0 : string) (params : Js.obj) (w w1 : World)
    (s : Store) (name : string) (lo hi z x y : Z) (c : byte) (d : list byte) :
  create uri0 params w = (Ok s, w1) ->
  Js.get params "table" = Js.Str name ->
  Js.get params "minzoom" = Js.of_int lo ->
  Js.get params "maxzoom" = Js.of_int hi ->
  db w !! name = None ->
  0 <= lo -> lo <= z <= hi -> 0 <= xyToIndex x y z < 4 ^ z ->
  next_outcome w1 = Proceed ->
  fst (fst (getTile z x y s w1)) = Err (attach s (raw NoTile))
  /\ exists w2,
       putTile z x y (Some (c :: d)) s w1 = (Ok tt, s, w2)
       /\ (next_outcome w2 = Proceed ->
           fst (fst (getTile z x y s w2))
           = Ok (Js.Buf (c :: d),
                 [ ("Content-Type", Js.Str "application/x-protobuf");
                   ("Content-Encoding", Js.Str "gzip") ])).
Proof.
  intros Hc Htable Hlo Hhi Hnone Hlo0 Hwin Hidx Hcalm.
  pose proof (create_table uri0 params w w1 s name Hc Htable) as Hdb.
  rewrite Hnone in Hdb.
  destruct (create_configured uri0 params w w1 s name lo hi Hc Htable Hlo Hhi)
    as (Hcfg & Hd & Hh).
  assert (Hpk : pk_ok []) by constructor.
  set (i := xyToIndex x y z) in *.
  split.
  - rewrite (StoreFacts.getTile_inside s w1 name lo hi z x y []); try assumption; [| lia].
    reflexivity.
  - pose proof Hcfg as [Hq Ht Hmin Hmax].
    rewrite (WriteFacts.putTile_inside s w1 lo hi z x y _ Hmin Hmax Hwin).
    rewrite (StoreFacts.storeData_direct s w1 _ _ _ Hd).
    unfold entry_for. cbn [Client.query Client.params].
    rewrite Hq, ClientFacts.queries_set, Ht.
    fold i. rewrite (WriteFacts.none_set name z i w1 [] Hcalm Hdb).
    eexists. split; [reflexivity |].
    intros Hcalm2.
    rewrite (StoreFacts.getTile_inside s _ name lo hi z x y (upsert z i (c :: d) []));
      try assumption; try lia.
    + fold i. rewrite (SqlFacts.lookup_upsert z i (c :: d) [] Hpk).
      cbn [fst r_tile]. now rewrite Hh.
    + cbn [db with_db]. apply lookup_insert_eq.
    + now apply SqlFacts.pk_upsert.
Qed.

End EndToEnd.

End EndToEnd.

(** * The theorems at work on the sample store *)

Module Witnesses.

Import Sql Spec Client Text PostgresStore Terms Claimed Sample Cases.
Import Promistreamus.

Lemma sample_configured : configured store "tiles" 0 14.
Proof. constructor; reflexivity. Defined.

Lemma buffering_configured : configured buffering "tiles" 0 14.
Proof. constructor; reflexivity. Defined.

Lemma sample_index : 0 <= xyToIndex (Host := host) 1 1 2 < 4 ^ 2.
Proof. vm_compute. split; [discriminate | reflexivity]. Defined.

Lemma empty_table_keyed : pk_ok [].
Proof. constructor. Defined.

(** The round trip on the sample store, written directly and written
    through the batch. *)
Lemma putTile_getTile_roundtrip_witness :
  (exists w1,
     putTile (H := host) 2 1 1 (Some (bytes "abc")) store (world []) = (Ok tt, store, w1)
     /\ fst (fst (getTile (H := host) 2 1 1 store w1))
        = Ok (Js.Buf (bytes "abc"), headers store))
  /\ (let '(_, s1, w1) := putTile (H := host) 2 1 1 (Some (bytes "abc")) buffering (world []) in
      let '(_, s2, w2) := flush (H := host) s1 w1 in
      fst (fst (getTile (H := host) 2 1 1 s2 w2))
      = Ok (Js.Buf (bytes "abc"), headers buffering)).
Proof.
  split.
  - destruct (proj1 (PointAccess.putTile_getTile_roundtrip (H := host) store (world [])
                       "tiles" 0 14 2 1 1 x61 [x62; x63] [] sample_configured
                       ltac:(lia) ltac:(lia) sample_index eq_refl empty_table_keyed)
                    eq_refl eq_refl) as (w1 & Hput & Hget).
    exists w1. split; [exact Hput |]. apply Hget.
    vm_compute in Hput. injection Hput as <-. reflexivity.
  - destruct (putTile (H := host) 2 1 1 (Some (bytes "abc")) buffering (world []))
      as [[r1 s1] w1] eqn:E1.
    destruct (flush (H := host) s1 w1) as [[r2 s2] w2] eqn:E2.
    assert (Hr1 : r1 = Ok tt) by (vm_compute in E1; now injection E1 as <- _ _).
    subst r1.
    assert (Hr2 : r2 = Ok tt).
    { vm_compute in E1. injection E1 as <- <-. vm_compute in E2. now injection E2 as <- _ _. }
    subst r2.
    refine (proj2 (PointAccess.putTile_getTile_roundtrip (H := host) buffering (world [])
                     "tiles" 0 14 2 1 1 x61 [x62; x63] [] buffering_configured _ _
                     sample_index eq_refl empty_table_keyed)
                  eq_refl s1 w1 s2 w2 E1 E2 _); try lia.
    vm_compute in E1. injection E1 as <- <-. vm_compute in E2. injection E2 as _ <-.
    reflexivity.
Defined.

Lemma one_tile_keyed : pk_ok one_tile.
Proof. repeat constructor. intros []. Defined.


Lemma getTile_outside_window_witness :
  getTile (H := host) 20 0 0 store (world one_tile)
  = (Err (attach (H := host) store (raw NoTile)), store, world one_tile).
Proof.
  apply (PointAccess.getTile_outside_window (H := host) store (world one_tile) 0 14 20 0 0);
    [reflexivity | reflexivity | right; lia].
Defined.

Lemma size_only_read_rejected_witness :
  lookup 2 3 one_tile = one_tile
  /\ fst (fst (queryTileAsync (H := host) (size_only 2 3) store (world one_tile)))
     = Err (attach (H := host) store (raw (Rejected InvalidQuery))).
Proof.
  split; [reflexivity |].
  unfold size_only.
  rewrite (PointAccess.size_only_read_rejected (H := host) store (world one_tile) 2 3);
    [reflexivity | reflexivity | lia | lia].
Defined.

Lemma stopWriting_counter_witness :
  let '(r, s', w') := stopWriting (H := host) nested (world []) in
  batchMode s' = 1 /\ batch s' = [] /\ log w' = [CallBatch (batch nested)].
Proof.
  pose proof (proj2 (Batching.stopWriting_counter (H := host) nested (world [])) eq_refl)
    as Hw.
  destruct (stopWriting (H := host) nested (world [])) as [[r s'] w'].
  destruct Hw as (Hn & Hb & _ & Hlog).
  split; [exact Hn |]. split; [exact Hb |]. apply Hlog. discriminate.
Defined.

Lemma stopWriting_failed_flush_witness :
  exists f s1 w1,
    stopWriting (H := host) nested (struck 0 []) = (Err (attach (H := host) nested f), s1, w1)
    /\ batchMode s1 = 1 /\ batch s1 = [].
Proof.
  destruct (flush (H := host) (set_batchMode (batchMode nested - 1) nested) (struck 0 []))
    as [[[a | f] s1] w1] eqn:E.
  - exfalso. vm_compute in E. discriminate E.
  - exists f, s1, w1.
    destruct (Batching.stopWriting_failed_flush (H := host) nested s1 (struck 0 []) w1 f
                eq_refl E) as (Hstop & Hn & Hb & _).
    split; [exact Hstop |]. split; [exact Hn | exact Hb].
Defined.

Lemma batch_threshold_witness :
  (let '(s1, w1) := submit_all (H := host) (firstn 2 three_writes) (buffering, world []) in
   w1 = world [] /\ length (batch s1) = 2%nat)
  /\ (let '(s2, w2) := submit_all (H := host) three_writes (buffering, world []) in
      batch s2 = [] /\ flush_count (log w2) = 1%nat).
Proof.
  destruct (Batching.batch_threshold (H := host) buffering (world []) 2
              (firstn 2 three_writes) (Js.of_int 2, Js.of_int 2, None)
              ltac:(lia) eq_refl eq_refl eq_refl eq_refl) as (Hbelow & Hover & _).
  split.
  - specialize (Hbelow 2%nat). cbn [firstn] in Hbelow.
    change (firstn 2 three_writes) with
      [ (Js.of_int 2, Js.of_int 0, Some (bytes "a"));
        (Js.of_int 2, Js.of_int 1, Some (bytes "b")) ].
    destruct (submit_all _ _) as [s1 w1]. destruct Hbelow as [-> ->].
    split; reflexivity.
  - change (firstn 2 three_writes ++ [(Js.of_int 2, Js.of_int 2, None)])
      with three_writes in Hover.
    destruct (submit_all three_writes _) as [s2 w2].
    destruct Hover as (Hb & _ & Hcount). split; [exact Hb | exact Hcount].
Defined.

Lemma two_rows_in_domain : in_domain 2 two_rows.
Proof.
  constructor; [cbn; intros _; lia |].
  constructor; [cbn; intros _; lia | constructor].
Defined.

(** The range query on the sample store with the tiles 5 and 3 at zoom 2:
    both lie between the bounds, and neither is yielded. *)
Lemma range_query_refused_witness :
  in_range 2 1 10 two_rows = two_rows
  /\ exists it w0,
       query (H := host) (range_options 2 1 10) store two_tiles = (Ok it, store, w0)
       /\ delivered (settled (fst (fst (play (drain 3) (it, store, w0))))) = []
       /\ settled (fst (fst (play (drain 3) (it, store, w0))))
          = [Refused (raw (Rejected QueryFailed)); Refused (raw (Rejected QueryFailed));
             Refused (raw (Rejected QueryFailed))].
Proof.
  split; [reflexivity |].
  destruct (RangeFacts.range_query_refused (H := host) store two_tiles "tiles" 2 1 10
              two_rows eq_refl ltac:(lia) ltac:(lia) ltac:(lia) eq_refl
              two_rows_in_domain eq_refl)
    as (_ & it & w0 & Hq & _ & Hnone & Hread).
  exists it, w0. split; [exact Hq |].
  split; [exact (Hnone (drain 3)) | exact (Hread 3%nat)].
Defined.


End Witnesses.

(** * The further theorems at work on the sample store *)

Module Instances.

Import Sql Spec Client Text PostgresStore Terms Sample Cases Session Scenes.
Import Promistreamus.

Lemma create_establishes_witness :
  uri store = uri_text /\ batchMode store = 0
  /\ Js.get (_params store) "password" = Js.Undef
  /\ Js.get (clientOpts store) "password" = Js.Str "hunter2".
Proof.
  destruct (Construction.create_establishes (H := host) uri_text uri_query (world [])
              (snd (create (H := host) uri_text uri_query (world []))) store)
    as (Hu & _ & _ & Hm & _ & Hp & _ & Hc & _).
  - vm_compute. reflexivity.
  - split; [exact Hu |]. split; [exact Hm |]. split; [exact Hp | exact Hc].
Defined.

Lemma create_rejects_database_witness :
  fst (create (H := host) uri_text bad_query (world []))
  = Err {| cause := Thrown ("Uri must have a valid 'database' query parameter"
                            +:+ json_string uri_text);
           moduleUri := Some (json_obj (H := host) bad_query) |}.
Proof.
  rewrite (Construction.create_rejects_database (H := host) uri_text bad_query (world [])
             "9maps");
    reflexivity.
Defined.

Lemma create_bootstrap_witness :
  exists s w', create (H := host) uri_text fresh_query bare = (Ok s, w')
               /\ db w' = <["tiles" := []]> (db bare).
Proof.
  exact (Construction.create_bootstrap (H := host) uri_text fresh_query bare "tiles"
           eq_refl eq_refl eq_refl eq_refl).
Defined.

Lemma putTile_outside_window_witness :
  exists message,
    putTile (H := host) 20 0 0 (Some (bytes "abc")) store (world [])
    = (Err (raw (Thrown message)), store, world []).
Proof.
  eexists.
  apply (Guards.putTile_outside_window (H := host) store (world []) 0 14 20 0 0);
    [reflexivity | reflexivity | right; lia].
Defined.

Lemma queryTileAsync_rejects_address_witness :
  exists message,
    queryTileAsync (H := host) [("zoom", Js.of_int 2); ("idx", Js.of_int 16)]
      store (world one_tile)
    = (Err (attach (H := host) store (raw (Thrown message))), store, world one_tile).
Proof.
  apply (Guards.queryTileAsync_rejects_address (H := host)); [reflexivity |].
  right. right. exists 2, 16.
  split; [reflexivity |]. split; [reflexivity |]. split; [lia |]. right. vm_compute.
  discriminate.
Defined.

Lemma queryTileAsync_rejects_write_time_witness :
  exists message,
    queryTileAsync (H := host) (with_write_time 2 3) store (world one_tile)
    = (Err (attach (H := host) store (raw (Thrown message))), store, world one_tile).
Proof.
  apply (Guards.queryTileAsync_rejects_write_time (H := host)). reflexivity.
Defined.

Lemma query_rejects_dates_witness :
  exists message,
    query (H := host) (since_epoch 2) store two_tiles
    = (Err (raw (Thrown message)), store, two_tiles).
Proof.
  apply (Guards.query_rejects_dates (H := host)). left. reflexivity.
Defined.

Lemma query_rejects_bounds_witness :
  exists message,
    query (H := host) (range_options 2 5 3) store two_tiles
    = (Err (raw (Thrown message)), store, two_tiles).
Proof.
  apply (Guards.query_rejects_bounds (H := host)); [lia | lia | left; lia].
Defined.

Lemma reads_never_write_witness :
  let '(_, s', w') := getTile (H := host) 2 1 1 store (world one_tile) in
  s' = store /\ db w' = db (world one_tile).
Proof.
  pose proof (proj2 (Isolation.reads_never_write (H := host) store (world one_tile)
                       eq_refl) 2 1 1) as Hw.
  destruct (getTile (H := host) 2 1 1 store (world one_tile)) as [[r s'] w'].
  destruct Hw as (Hs & Hdb & _). split; [exact Hs | exact Hdb].
Defined.

Lemma other_index : 0 <= xyToIndex (Host := host) 0 1 2 < 4 ^ 2.
Proof. vm_compute. split; [discriminate | reflexivity]. Defined.

Lemma writes_leave_other_tiles_witness :
  exists w1,
    putTile (H := host) 2 0 1 (Some (bytes "xyz")) store (world one_tile)
    = (Ok tt, store, w1)
    /\ fst (fst (getTile (H := host) 2 1 1 store w1))
       = fst (fst (getTile (H := host) 2 1 1 store (world one_tile))).
Proof.
  destruct (proj1 (Isolation.writes_leave_other_tiles (H := host) store (world one_tile)
                     "tiles" 0 14 one_tile Witnesses.sample_configured ltac:(lia) eq_refl
                     Witnesses.one_tile_keyed eq_refl eq_refl)
                  2 0 1 (Some (bytes "xyz")) ltac:(lia)) as (w1 & Hput & Hframe).
  exists w1. split; [exact Hput |].
  apply Hframe; [lia | exact Witnesses.sample_index | vm_compute; discriminate |].
  vm_compute in Hput. injection Hput as <-. reflexivity.
Defined.

Lemma session_invariant_witness :
  let s' := fst (perform (H := host) busy (store, world [])) in
  same_setup store s' /\ 0 <= batchMode s' /\ Z.of_nat (length (batch s')) <= 2.
Proof.
  apply (Sessions.session_invariant (H := host) busy store (world []) 2);
    [reflexivity | lia | vm_compute; discriminate | vm_compute; discriminate].
Defined.

Lemma counter_tracks_nesting_witness :
  batchMode (fst (perform (H := host) busy (store, world []))) = 0
  /\ batchMode (fst (perform (H := host) (busy ++ repeat Start 2 ++ repeat Stop 2)
                       (store, world [])))
     = batchMode (fst (perform (H := host) busy (store, world []))).
Proof.
  destruct (Sessions.counter_tracks_nesting (H := host) busy store (world []))
    as [Hdepth Hbalance].
  split; [rewrite Hdepth; reflexivity |].
  apply (Hbalance 2%nat). vm_compute. discriminate.
Defined.

Lemma read_with_size_witness :
  fst (fst (queryTileAsync (H := host) (with_size 2 3) store (world one_tile)))
  = Ok (Some {| tile := Js.Buf (bytes "abc"); size := Js.of_int 3 |}).
Proof.
  rewrite (Answers.read_with_size (H := host) (with_size 2 3) store (world one_tile)
             "tiles" 2 3 one_tile);
    try reflexivity; try lia.
  - left. reflexivity.
  - exact Witnesses.one_tile_keyed.
Defined.

Lemma getInfo_default_witness :
  fst (fst (Metadata.getInfo (H := host) "1.0.0" (parse_only document) store
              (world one_tile)))
  = Ok [ ("tilejson", Js.Str "2.1.0");
         ("name", Js.Str "PostgresStore 1.0.0");
         ("bounds", Js.Str "-180,-85.0511,180,85.0511");
         ("minzoom", Js.of_int 0);
         ("maxzoom", Js.of_int 14) ].
Proof.
  rewrite (Answers.getInfo_default (H := host) "1.0.0" (parse_only document) store
             (world one_tile) "tiles" one_tile);
    try reflexivity.
  exact Witnesses.one_tile_keyed.
Defined.


Lemma pending_write_invisible_witness :
  exists s1,
    putTile (H := host) 2 1 1 (Some (bytes "abc")) buffering (world [])
    = (Ok tt, s1, world [])
    /\ fst (fst (getTile (H := host) 2 1 1 s1 (world [])))
       = Err (attach (H := host) buffering (raw NoTile)).
Proof.
  destruct (Pending.pending_write_invisible (H := host) buffering (world []) 0 14 2 2 1 1
              (Some (bytes "abc")) eq_refl eq_refl eq_refl ltac:(lia))
    as (s1 & Hput & _ & Hget).
  - vm_compute. discriminate.
  - vm_compute. reflexivity.
  - exists s1. split; [exact Hput |]. rewrite Hget. reflexivity.
Defined.

Lemma fresh_store_round_trip_witness :
  exists s w1 w2,
    create (H := host) uri_text fresh_query bare = (Ok s, w1)
    /\ fst (fst (getTile (H := host) 2 1 1 s w1)) = Err (attach (H := host) s (raw NoTile))
    /\ putTile (H := host) 2 1 1 (Some (bytes "abc")) s w1 = (Ok tt, s, w2)
    /\ fst (fst (getTile (H := host) 2 1 1 s w2)) = Ok (Js.Buf (bytes "abc"), the_headers).
Proof.
  destruct (create (H := host) uri_text fresh_query bare) as [[s | f] w1] eqn:E.
  - destruct (EndToEnd.fresh_store_round_trip (H := host) uri_text fresh_query bare w1 s
                "tiles" 0 14 2 1 1 x61 [x62; x63] E eq_refl eq_refl eq_refl eq_refl
                ltac:(lia) ltac:(lia) Witnesses.sample_index)
      as (Hnone & w2 & Hput & Hget).
    + vm_compute in E. injection E as _ <-. reflexivity.
    + exists s, w1, w2. split; [reflexivity |]. split; [exact Hnone |].
      split; [exact Hput |]. apply Hget.
      vm_compute in E. injection E as <- <-. vm_compute in Hput. injection Hput as <-.
      reflexivity.
  - exfalso. vm_compute in E. discriminate E.
Defined.

End Instances.
